(** * Stylify CssRecord: a shallow embedding and its properties

    Source: [packages/stylify/src/Compiler/CssRecord.ts].  The file holds two
    generations of the class: the legacy default export (selectors list,
    [compile], [serialize], [hydrate]) and the current [CssRecord]
    ([configure], [addProperty], [generateCss], dirty-flag cache).

    The compiler around it ([Compiler], [CompilationResult], [MacroMatch],
    [SelectorProperties], the hook registry, the selector mangler) is not in
    the source tree; module [Compiler] below follows the specification and
    the mangler is a parameter.

    Conventions of the embedding:
    - a JavaScript string is a Rocq [string]; a character is one code unit,
      and the character classes of the regular expressions are the ones of
      the source restricted to code units below 256;
    - a plain object used as a dictionary is an association list kept in
      insertion order; enumeration ([for..in], [Object.keys], spread) goes
      through [obj_entries], which puts array-index keys first, as
      JavaScript does;
    - a method that mutates [this] is a function from the record to the
      record; a method that can throw returns a [completion]. *)

From Stdlib Require Import String Ascii List Bool NArith ZArith Arith Lia.
From Stdlib Require Import Permutation.
Import ListNotations.

Local Open Scope string_scope.
Local Open Scope list_scope.

(** String concatenation ([+] on strings, template literals). *)
Local Infix "+++" := String.append (right associativity, at level 60).

(** ** Characters and the regular expressions of the source *)

Definition code (c : ascii) : N := N_of_ascii c.

Definition in_range (lo hi : N) (c : ascii) : bool :=
  (N.leb lo (code c)) && (N.leb (code c) hi).

(** [\d] *)
Definition is_digit (c : ascii) : bool := in_range 48 57 c.

(** [[-_a-zA-Z\d]]: the characters the escaping regular expression leaves alone. *)
Definition is_ident_char (c : ascii) : bool :=
  N.eqb (code c) 45 || N.eqb (code c) 95
  || in_range 97 122 c || in_range 65 90 c || is_digit c.

(** [\s] (tab, line feed, vertical tab, form feed, carriage return, space,
    no-break space). *)
Definition is_space (c : ascii) : bool :=
  in_range 9 13 c || N.eqb (code c) 32 || N.eqb (code c) 160.

(** Line terminators, where [^] and [$] match under the [m] flag. *)
Definition is_line_terminator (c : ascii) : bool :=
  N.eqb (code c) 10 || N.eqb (code c) 13.

Definition backslash : ascii := ascii_of_N 92.

(** [s.replace(/([^-_a-zA-Z\d])/g, '\\$1')] *)
Fixpoint escape_selector (s : string) : string :=
  match s with
  | EmptyString => EmptyString
  | String c s' =>
      if is_ident_char c then String c (escape_selector s')
      else String backslash (String c (escape_selector s'))
  end.

(** [s.replace(/\\([^-_a-zA-Z\d])/g, '$1')] (legacy [serialize]). *)
Fixpoint unescape_selector (s : string) : string :=
  match s with
  | EmptyString => EmptyString
  | String c rest =>
      match rest with
      | EmptyString => String c EmptyString
      | String d s' =>
          if Ascii.eqb c backslash && negb (is_ident_char d)
          then String d (unescape_selector s')
          else String c (unescape_selector rest)
      end
  end.

(** [String(s[0])]: indexing past the end gives [undefined], which
    [RegExp.prototype.test] turns into the text "undefined". *)
Definition char_at0 (s : string) : string :=
  match s with
  | EmptyString => "undefined"
  | String c _ => String c EmptyString
  end.

(** [(/^\d/gm).test(s)]: some line of [s] starts with a digit. *)
Fixpoint test_line_start_digit (at_start : bool) (s : string) : bool :=
  match s with
  | EmptyString => false
  | String c s' =>
      (at_start && is_digit c) || test_line_start_digit (is_line_terminator c) s'
  end.

(** [(/^\s*$/gm).test(s)]: some line of [s] is empty or all white space.
    [blank] tells whether the line read so far is. *)
Fixpoint test_blank_line (blank : bool) (s : string) : bool :=
  match s with
  | EmptyString => blank
  | String c s' =>
      if is_line_terminator c then blank || test_blank_line true s'
      else test_blank_line (blank && is_space c) s'
  end.

(** [s.replace(/\s\s+/g, ' ')]: a run of two or more white-space characters
    becomes one space; a lone white-space character stays. *)
Fixpoint collapse_spaces (in_run : bool) (s : string) : string :=
  match s with
  | EmptyString => EmptyString
  | String c s' =>
      if is_space c then
        if in_run then collapse_spaces true s'
        else match s' with
             | EmptyString => String c EmptyString
             | String d _ =>
                 if is_space d then String " " (collapse_spaces true s')
                 else String c (collapse_spaces false s')
             end
      else String c (collapse_spaces false s')
  end.

(** [s.split(' ')] *)
Fixpoint split_space (s : string) : list string :=
  match s with
  | EmptyString => [EmptyString]
  | String c s' =>
      if Ascii.eqb c " " then EmptyString :: split_space s'
      else match split_space s' with
           | h :: t => String c h :: t
           | [] => [String c EmptyString]
           end
  end.

(** [l.join(sep)] *)
Definition join (sep : string) (l : list string) : string := String.concat sep l.

(** [l.includes(x)] and [l.indexOf(x) > -1] on an array of strings. *)
Definition includes (x : string) (l : list string) : bool :=
  existsb (String.eqb x) l.

(** [l.indexOf(x)], with [None] for [-1]. *)
Fixpoint indexOf (x : string) (l : list string) : option nat :=
  match l with
  | [] => None
  | y :: l' =>
      if String.eqb x y then Some 0
      else match indexOf x l' with Some i => Some (S i) | None => None end
  end.

(** [s.replace(/ /g, '.')], what [split(' ')] followed by [join('.')] does
    to a text. *)
Fixpoint spaces_to_dots (s : string) : string :=
  match s with
  | EmptyString => EmptyString
  | String c s' => String (if Ascii.eqb c " " then "."%char else c) (spaces_to_dots s')
  end.

(** ** Plain objects used as dictionaries *)

Section Objects.
Context {V : Type}.

Definition Obj := list (string * V).

Fixpoint obj_get (k : string) (o : Obj) : option V :=
  match o with
  | [] => None
  | (k', v) :: o' => if String.eqb k k' then Some v else obj_get k o'
  end.

Definition obj_has_own (k : string) (o : Obj) : bool :=
  match obj_get k o with Some _ => true | None => false end.

(** [o[k] = v]: an existing key keeps its place. *)
Fixpoint obj_set (k : string) (v : V) (o : Obj) : Obj :=
  match o with
  | [] => [(k, v)]
  | (k', v') :: o' =>
      if String.eqb k k' then (k, v) :: o' else (k', v') :: obj_set k v o'
  end.

(** Value of a string of decimal digits. *)
Fixpoint digits_value (acc : N) (s : string) : option N :=
  match s with
  | EmptyString => Some acc
  | String c s' =>
      if is_digit c then digits_value (acc * 10 + (code c - 48)) s' else None
  end.

(** An array index: a canonical numeric string below 2^32 - 1. *)
Definition array_index (s : string) : option N :=
  match s with
  | EmptyString => None
  | String c s' =>
      if N.eqb (code c) 48 then
        match s' with EmptyString => Some 0%N | _ => None end
      else match digits_value 0 s with
           | Some n => if N.ltb n 4294967295 then Some n else None
           | None => None
           end
  end.

Fixpoint insert_indexed (e : N * (string * V)) (l : list (N * (string * V)))
  : list (N * (string * V)) :=
  match l with
  | [] => [e]
  | e' :: l' =>
      if N.ltb (fst e) (fst e') then e :: l else e' :: insert_indexed e l'
  end.

Fixpoint indexed_entries (o : Obj) : list (N * (string * V)) :=
  match o with
  | [] => []
  | (k, v) :: o' =>
      match array_index k with
      | Some n => insert_indexed (n, (k, v)) (indexed_entries o')
      | None => indexed_entries o'
      end
  end.

Definition named_entries (o : Obj) : Obj :=
  filter (fun e => match array_index (fst e) with Some _ => false | None => true end) o.

(** Own enumerable properties in enumeration order: array indices in
    ascending order, then the other keys in insertion order. *)
Definition obj_entries (o : Obj) : Obj :=
  map snd (indexed_entries o) ++ named_entries o.

Definition obj_keys (o : Obj) : list string := map fst (obj_entries o).

(** [{...a, ...b}] *)
Definition obj_spread (a b : Obj) : Obj :=
  fold_left (fun acc e => obj_set (fst e) (snd e) acc) (obj_entries b) a.

(** Keys are unique in a well-formed object. *)
Definition obj_wf (o : Obj) : Prop := NoDup (map fst o).
End Objects.

Arguments Obj V : clear implicits.

(** The same keys, every value through [f]. *)
Definition map_values {V W : Type} (f : V -> W) (o : Obj V) : Obj W :=
  map (fun e => (fst e, f (snd e))) o.

(** Names every object literal inherits from [Object.prototype]; the [in]
    operator and a property read see them. *)
Definition Object_prototype_keys : list string :=
  [ "constructor"; "__defineGetter__"; "__defineSetter__"; "hasOwnProperty";
    "__lookupGetter__"; "__lookupSetter__"; "isPrototypeOf";
    "propertyIsEnumerable"; "toString"; "valueOf"; "__proto__";
    "toLocaleString" ].

(** [k in o] *)
Definition js_in {V : Type} (k : string) (o : Obj V) : bool :=
  obj_has_own k o || includes k Object_prototype_keys.

(** ** The current [CssRecord] class *)

Definition PropertiesType := Obj string.
Definition CssRecordComponentsType := Obj (list string).

Record CssRecord := mkCssRecord {
  changed : bool;
  cache : option string;
  shouldBeGenerated : bool;
  selector : option string;
  mangledSelector : option string;
  screenId : option Z;
  scope : option string;
  customSelectors : list string;
  components : CssRecordComponentsType;
  properties : PropertiesType;
  pseudoClasses : list string
}.

(** Every field of [CssRecordConfigInterface] is optional. *)
Record CssRecordConfigInterface := mkConfig {
  cfg_screenId : option Z;
  cfg_selector : option string;
  cfg_properties : option PropertiesType;
  cfg_customSelectors : option (list string);
  cfg_components : option CssRecordComponentsType;
  cfg_pseudoClasses : option (list string);
  cfg_scope : option string;
  cfg_shouldBeGenerated : option bool
}.

(** [mangleSelectors] is optional in the source; absent reads as false. *)
Record CssRecordCompileParametersConfig := mkCompileConfig {
  minimize : bool;
  mangleSelectors : bool
}.

(** State of a fresh instance, before the constructor calls [configure]. *)
Definition initial_record : CssRecord :=
  mkCssRecord false None false None None None None [] [] [] [].

(** The empty configuration [{}]. *)
Definition empty_config : CssRecordConfigInterface :=
  mkConfig None None None None None None None None.

Definition set_changed (b : bool) (r : CssRecord) : CssRecord :=
  mkCssRecord b (cache r) (shouldBeGenerated r) (selector r) (mangledSelector r)
    (screenId r) (scope r) (customSelectors r) (components r) (properties r)
    (pseudoClasses r).

Definition set_cache (c : option string) (r : CssRecord) : CssRecord :=
  mkCssRecord (changed r) c (shouldBeGenerated r) (selector r) (mangledSelector r)
    (screenId r) (scope r) (customSelectors r) (components r) (properties r)
    (pseudoClasses r).

Definition set_customSelectors (l : list string) (r : CssRecord) : CssRecord :=
  mkCssRecord (changed r) (cache r) (shouldBeGenerated r) (selector r)
    (mangledSelector r) (screenId r) (scope r) l (components r) (properties r)
    (pseudoClasses r).

Definition set_components (c : CssRecordComponentsType) (r : CssRecord) : CssRecord :=
  mkCssRecord (changed r) (cache r) (shouldBeGenerated r) (selector r)
    (mangledSelector r) (screenId r) (scope r) (customSelectors r) c (properties r)
    (pseudoClasses r).

Definition set_properties (p : PropertiesType) (r : CssRecord) : CssRecord :=
  mkCssRecord (changed r) (cache r) (shouldBeGenerated r) (selector r)
    (mangledSelector r) (screenId r) (scope r) (customSelectors r) (components r) p
    (pseudoClasses r).

Definition set_pseudoClasses (l : list string) (r : CssRecord) : CssRecord :=
  mkCssRecord (changed r) (cache r) (shouldBeGenerated r) (selector r)
    (mangledSelector r) (screenId r) (scope r) (customSelectors r) (components r)
    (properties r) l.

(** ** Abrupt completion *)

(** [TypeError] is what reading a property of [undefined] throws;
    [CaptureNotFound] is the condition the spec gives to a macro handler that
    indexes a capture group the match does not have. *)
Inductive JsError := TypeError | CaptureNotFound.

(** A call either returns or throws; both carry the state reached. *)
Inductive completion (A : Type) :=
| Normal (a : A)
| Throw (e : JsError) (a : A).

Arguments Normal {A} a.
Arguments Throw {A} e a.

(** ** The hook registry

    Modelled from the spec: the Hook Registry ([../Hooks]), of which the
    source has only the two call sites.  [callHook] folds the payload through
    the listeners of a name in registration order and returns the payload
    unchanged when there is none.  A listener of ['cssRecord:cssGenerated']
    receives the record itself and is given by what it does to it. *)

Record HookRegistry := mkHooks {
  cssRecord_addProperty : list (PropertiesType -> PropertiesType);
  cssRecord_cssGenerated : list (CssRecord -> CssRecord)
}.

(** Modelled from the spec: [callHook] of the missing Hook Registry, a fold
    of the payload through the listeners in registration order. *)
Definition callHook {A : Type} (listeners : list (A -> A)) (payload : A) : A :=
  fold_left (fun p listener => listener p) listeners payload.

(** Modelled from the spec: the missing Hook Registry with nothing
    registered on it. *)
Definition no_hooks : HookRegistry := mkHooks [] [].

Definition newline : string := String (ascii_of_N 10) EmptyString.
Definition tab : string := String (ascii_of_N 9) EmptyString.

(** Template literals print [null] as the text "null". *)
Definition template (o : option string) : string :=
  match o with Some s => s | None => "null" end.

(** [this.scope ? this.scope : '']: a null scope adds nothing. *)
Definition template_scope (o : option string) : string :=
  match o with Some s => s | None => EmptyString end.

(** [!this.cache]: null and the empty string are both falsy. *)
Definition cache_missing (c : option string) : bool :=
  match c with None => true | Some s => String.eqb s EmptyString end.

Section CssRecordMethods.
Variable hooks : HookRegistry.

(** The selector mangler ([minifiedSelectorGenerator], imported from the
    package index) is not part of the file; it is a process-wide table,
    taken here as a state and a transition on it. *)
Context {Mangler : Type}.
Variable getMangledSelector : option string -> Mangler -> string * Mangler.

Definition addProperty (property value : string) (r : CssRecord) : CssRecord :=
  if js_in property (properties r) then r
  else
    let addPropertyHookData : PropertiesType := [(property, value)] in
    let hookResult := callHook (cssRecord_addProperty hooks) addPropertyHookData in
    set_properties (obj_spread (properties r) hookResult) (set_changed true r).

Definition addProperties (props : PropertiesType) (r : CssRecord) : CssRecord :=
  fold_left
    (fun r e => addProperty (fst e) (snd e) (set_changed true r))
    (obj_entries props) r.

Definition addPseudoClass (r : CssRecord) (pseudoClass : string) : CssRecord :=
  if includes pseudoClass (pseudoClasses r) then r
  else set_pseudoClasses (pseudoClasses r ++ [pseudoClass]) (set_changed true r).

(** The argument is [string[] | string]; a lone string is wrapped. *)
Definition addPseudoClasses (arg : string + list string) (r : CssRecord) : CssRecord :=
  let l := match arg with inl s => [s] | inr l => l end in
  fold_left addPseudoClass l r.

Definition addCustomSelector (sel : string) (r : CssRecord) : CssRecord :=
  if includes sel (customSelectors r) then r
  else set_customSelectors (customSelectors r ++ [sel]) r.

Definition addComponent (sel : string) (selectorsChain : list string)
    (r : CssRecord) : CssRecord :=
  let sel := escape_selector sel in
  if js_in sel (components r) then r
  else set_components (obj_set sel selectorsChain (components r)) (set_changed true r).

Definition addComponents (comps : CssRecordComponentsType) (r : CssRecord) : CssRecord :=
  fold_left (fun r e => addComponent (fst e) (snd e) r) (obj_entries comps) r.

(** [Object.keys(config).length] *)
Definition config_keys (c : CssRecordConfigInterface) : nat :=
  let present {A} (o : option A) := match o with Some _ => 1 | None => 0 end in
  present (cfg_screenId c) + present (cfg_selector c) + present (cfg_properties c)
  + present (cfg_customSelectors c) + present (cfg_components c)
  + present (cfg_pseudoClasses c) + present (cfg_scope c)
  + present (cfg_shouldBeGenerated c).

Definition or_default {A : Type} (o : option A) (d : A) : A :=
  match o with Some a => a | None => d end.

(** [config.scope || null]: an empty scope is falsy. *)
Definition scope_or_null (o : option string) : option string :=
  match o with
  | Some s => if String.eqb s EmptyString then None else Some s
  | None => None
  end.

Definition configure (config : CssRecordConfigInterface) (st : Mangler * CssRecord)
  : completion (Mangler * CssRecord) :=
  let (mg, r) := st in
  if Nat.eqb (config_keys config) 0 then Normal (mg, r)
  else
    let (mangled, mg') := getMangledSelector (cfg_selector config) mg in
    let r :=
      mkCssRecord (changed r) (cache r) (shouldBeGenerated r) (selector r)
        (Some mangled) (cfg_screenId config) (scope r) (customSelectors r)
        (components r) (properties r) (pseudoClasses r) in
    match cfg_selector config with
    | None => Throw TypeError (mg', r)
    | Some s =>
        let sel := escape_selector s in
        let sel :=
          if test_line_start_digit true (char_at0 sel)
          then String backslash (String "3" sel) else sel in
        let r :=
          mkCssRecord (changed r) (cache r)
            (or_default (cfg_shouldBeGenerated config) (shouldBeGenerated r))
            (Some sel) (mangledSelector r) (screenId r)
            (scope_or_null (cfg_scope config)) (customSelectors r) (components r)
            (properties r) (pseudoClasses r) in
        let r := addComponents (or_default (cfg_components config) []) r in
        let r := addProperties (or_default (cfg_properties config) []) r in
        let r := addPseudoClasses (inr (or_default (cfg_pseudoClasses config) [])) r in
        Normal (mg', set_changed true r)
    end.

(** [new CssRecord(config)] *)
Definition new_CssRecord (config : CssRecordConfigInterface) (mg : Mangler)
  : completion (Mangler * CssRecord) :=
  configure config (mg, initial_record).

(** The chain of a component whose only entry is blank is emptied in place. *)
Definition pop_blank_chain (selectorsChain : list string) : list string :=
  match selectorsChain with
  | [only] => if test_blank_line true only then [] else selectorsChain
  | _ => selectorsChain
  end.

Definition chain_selectors (componentSelector : string) (selectorsChain : list string)
  : list string :=
  match selectorsChain with
  | [] => [componentSelector]
  | _ =>
      map (fun chainedSelectors =>
             join "." (split_space (collapse_spaces false chainedSelectors)
                       ++ [componentSelector]))
          selectorsChain
  end.

Definition componentsSelectors_of (comps : CssRecordComponentsType) : list string :=
  flat_map (fun e => chain_selectors (fst e) (pop_blank_chain (snd e)))
           (obj_entries comps).

Definition popped_components (comps : CssRecordComponentsType) : CssRecordComponentsType :=
  map_values pop_blank_chain comps.

Definition add_suffix (suffix : string) (sel : string) : string := sel +++ suffix.

(** One turn of the loop over [this.pseudoClasses]: [customSelectors] is
    assigned, [classSelectors] is extended. *)
Definition pseudo_step (custom : list string) (cssRecordSelector : string)
    (componentsSelectors : list string) (acc : list string * list string)
    (pseudoClass : string) : list string * list string :=
  let pseudoClassSuffix := ":" +++ pseudoClass in
  (map (add_suffix pseudoClassSuffix) custom,
   snd acc ++ [cssRecordSelector +++ pseudoClassSuffix]
     ++ map (add_suffix pseudoClassSuffix) componentsSelectors).

(** The [if (this.pseudoClasses.length) ... else ...] block: the custom and the
    class selectors before the scope is put in front. *)
Definition custom_and_class (custom : list string) (cssRecordSelector : string)
    (componentsSelectors : list string) (pcs : list string)
  : list string * list string :=
  match pcs with
  | [] => (custom, cssRecordSelector :: componentsSelectors)
  | _ =>
      fold_left (pseudo_step custom cssRecordSelector componentsSelectors) pcs ([], [])
  end.

(** The final [selectors] array of [generateCss]. *)
Definition selector_variants (config : CssRecordCompileParametersConfig)
    (r : CssRecord) : list string :=
  let cssRecordSelector :=
    template (if mangleSelectors config then mangledSelector r else selector r) in
  let componentsSelectors := componentsSelectors_of (components r) in
  let '(customSels, classSels) :=
    custom_and_class (customSelectors r) cssRecordSelector componentsSelectors
      (pseudoClasses r) in
  let scopePart := template_scope (scope r) in
  map (fun s => scopePart +++ s) customSels
  ++ map (fun s => scopePart +++ "." +++ s) classSels.

(** The text assigned to [this.cache]. *)
Definition render (config : CssRecordCompileParametersConfig) (r : CssRecord) : string :=
  let newLine := if minimize config then EmptyString else newline in
  let indentation := if minimize config then EmptyString else tab in
  let spacing := if minimize config then EmptyString else " " in
  join ("," +++ newLine) (selector_variants config r)
  +++ "{" +++ newLine
  +++ join (";" +++ newLine)
        (map (fun e => (indentation +++ fst e) +++ ":" +++ (spacing +++ snd e))
             (obj_entries (properties r)))
  +++ newLine
  +++ "}" +++ newLine.

(** The body of the [if (this.changed || !this.cache)] block. *)
Definition regenerate (config : CssRecordCompileParametersConfig) (r : CssRecord)
  : CssRecord :=
  set_changed false
    (set_cache (Some (render config r))
       (set_components (popped_components (components r)) r)).

Definition refresh_cache (config : CssRecordCompileParametersConfig) (r : CssRecord)
  : CssRecord :=
  if changed r || cache_missing (cache r) then regenerate config r else r.

(** Returns [this.cache], read after the listeners have run, and the state. *)
Definition generateCss (config : CssRecordCompileParametersConfig) (r : CssRecord)
  : option string * CssRecord :=
  let r := refresh_cache config r in
  let r := callHook (cssRecord_cssGenerated hooks) r in
  (cache r, r).
End CssRecordMethods.

(** ** The legacy default-export class *)

Module Legacy.

(** Property values are typed [any] in the source; the values met here are
    CSS texts, so a stored value is never [undefined]. *)
Record CssRecord := mkCssRecord {
  selectors : list string;
  properties : Obj string;
  pseudoClasses : list string
}.

(** What [serialize] returns and [hydrate] and [deserialize] read:
    [pseudoClasses] is a key that may be missing. *)
Record Snapshot := mkSnapshot {
  snap_selectors : list string;
  snap_properties : Obj string;
  snap_pseudoClasses : option (list string)
}.

(** [typeof this.properties[name] !== 'undefined']: the read goes through
    the prototype. *)
Definition hasProperty (name : string) (r : CssRecord) : bool :=
  obj_has_own name (properties r) || includes name Object_prototype_keys.

Definition hasSelector (sel : string) (r : CssRecord) : bool :=
  includes sel (selectors r).

Definition addProperty (property value : string) (r : CssRecord) : CssRecord :=
  if hasProperty property r then r
  else mkCssRecord (selectors r) (obj_set property value (properties r))
         (pseudoClasses r).

(** [getSelector(selector)]: the stored text at the index [indexOf] gives, or
    [null]. *)
Definition getSelector (sel : string) (r : CssRecord) : option string :=
  if hasSelector sel r then
    match indexOf sel (selectors r) with
    | Some i => nth_error (selectors r) i
    | None => None
    end
  else None.

(** A null or empty [pseudoClass] is falsy. *)
Definition addSelector (sel : string) (pseudoClass : option string)
    (r : CssRecord) : CssRecord :=
  let sel := escape_selector sel in
  let sel :=
    match pseudoClass with
    | Some pc => if String.eqb pc EmptyString then sel else sel +++ ":" +++ pc
    | None => sel
    end in
  if hasSelector sel r then r
  else mkCssRecord (selectors r ++ [sel]) (properties r) (pseudoClasses r).

(** The first parameter of the constructor: [null], a string or an array. *)
Inductive SelectorArg :=
| NoSelector
| OneSelector (s : string)
| SelectorList (l : list string).

(** [new CssRecord(selector, properties, pseudoClases)]; an empty string is
    falsy and adds nothing. *)
Definition new_CssRecord (sel : SelectorArg) (props : Obj string)
    (pseudoClases : list string) : CssRecord :=
  let l :=
    match sel with
    | NoSelector => []
    | OneSelector s => if String.eqb s EmptyString then [] else [s]
    | SelectorList l => l
    end in
  let r := fold_left (fun r s => addSelector s None r) l (mkCssRecord [] [] []) in
  mkCssRecord (selectors r) props pseudoClases.

(** [new CssRecord()] *)
Definition fresh : CssRecord := new_CssRecord NoSelector [] [].

(** [compile(config)] with [config.minimize] read as false when absent. *)
Definition compile (minimize : bool) (r : CssRecord) : string :=
  let newLine := if minimize then EmptyString else newline in
  join ("," +++ newLine) (map (fun s => "." +++ s) (selectors r))
  +++ "{" +++ newLine
  +++ join (";" +++ newLine)
        (map (fun e => (if minimize then EmptyString else tab) +++ fst e +++ ":" +++ snd e)
             (obj_entries (properties r)))
  +++ newLine +++ "}" +++ newLine.

(** [this.properties.length] is the property named "length" of the
    dictionary; it is truthy when present and not empty. *)
Definition properties_length_truthy (r : CssRecord) : bool :=
  match obj_get "length" (properties r) with
  | Some v => negb (String.eqb v EmptyString)
  | None => false
  end.

Definition serialize (r : CssRecord) : Snapshot :=
  mkSnapshot (map unescape_selector (selectors r)) (properties r)
    (if properties_length_truthy r then Some (pseudoClasses r) else None).

(** A missing [data.pseudoClasses] takes the constructor's default. *)
Definition deserialize (data : Snapshot) : CssRecord :=
  let r :=
    new_CssRecord NoSelector (snap_properties data)
      (match snap_pseudoClasses data with Some l => l | None => [] end) in
  mkCssRecord (snap_selectors data) (properties r) (pseudoClasses r).

(** [data.pseudoClasses.length] throws when the key is missing. *)
Definition hydrate (data : Snapshot) (r : CssRecord) : completion CssRecord :=
  let r := fold_left (fun r s => addSelector s None r) (snap_selectors data) r in
  match snap_pseudoClasses data with
  | None => Throw TypeError r
  | Some pcs =>
      let r :=
        match pcs with
        | [] => r
        | _ =>
            mkCssRecord (selectors r) (properties r)
              (pseudoClasses r
               ++ filter (fun pc => negb (includes pc (pseudoClasses r))) pcs)
        end in
      Normal
        (fold_left (fun r e => addProperty (fst e) (snd e) r)
           (obj_entries (snap_properties data)) r)
  end.

End Legacy.

(** ** The compiler and the compilation result

    Neither [Compiler] nor [CompilationResult] nor [MacroMatch] nor
    [SelectorProperties] is in the source tree (only a test and the bundler
    call them).  This module follows sections 3, 4.3 to 4.6 and 6 of the
    specification; the records it fills are the [CssRecord] above.  The
    specification leaves open how a [MacroMatch] is parsed out of a match
    object and the component alias table, so that construction is a
    parameter of the scan. *)

Module Compiler.

(** Modelled from the spec: Macro Match (missing [MacroMatch] class).  The
    matched text, its capture groups and the structural context parsed from
    it: screen, pseudo-classes, component associations, and, when the token
    declares a component alias rather than a literal property macro, that
    alias with its chain. *)
Record MacroMatch := mkMacroMatch {
  fullMatch : string;
  captures : list string;
  mm_screenId : option Z;
  mm_pseudoClasses : list string;
  mm_components : CssRecordComponentsType;
  declaredComponent : option (string * list string)
}.

(** Modelled from the spec: the match object of the missing
    regular-expression engine for one macro pattern against a content: the
    matched text and its capture groups. *)
Record RegExpMatch := mkRegExpMatch {
  matched : string;
  groups : list string
}.

(** Modelled from the spec: the component alias table of the missing
    [Compiler]: alias to chain. *)
Definition ComponentTable := CssRecordComponentsType.

(** Modelled from the spec: registering an alias and its chain in the
    active component table of the missing [Compiler] (step 2 of
    [compile]). *)
Definition registerComponent (alias : string) (chain : list string)
    (T : ComponentTable) : ComponentTable :=
  obj_set alias chain T.

(** Modelled from the spec: indexed access to the capture groups of the
    missing [MacroMatch]; out of range is [CaptureNotFound], here [None]. *)
Definition getCapture (i : nat) (m : MacroMatch) : option string :=
  nth_error (captures m) i.

(** Modelled from the spec: a macro handler (missing from the source), given
    by the [add] calls it makes on its accumulator, or [None] when it
    indexes an absent capture. *)
Definition Handler := MacroMatch -> option (list (string * string)).

(** Modelled from the spec: identity of a record inside the missing
    [CompilationResult]: escaped selector, screen, scope. *)
Definition RecordKey := (string * option Z * option string)%type.

(** Modelled from the spec: equality of the optional parts of the identity
    of a record in the missing [CompilationResult]. *)
Definition option_eqb {A : Type} (eqb : A -> A -> bool) (x y : option A) : bool :=
  match x, y with
  | Some a, Some b => eqb a b
  | None, None => true
  | _, _ => false
  end.

(** Modelled from the spec: two identities of the missing
    [CompilationResult] are the same: same escaped selector, same screen,
    same scope. *)
Definition key_eqb (k k' : RecordKey) : bool :=
  String.eqb (fst (fst k)) (fst (fst k'))
  && option_eqb Z.eqb (snd (fst k)) (snd (fst k'))
  && option_eqb String.eqb (snd k) (snd k').

(** Modelled from the spec: the missing [CompilationResult], its records in
    creation order under their identity. *)
Definition CompilationResult := list (RecordKey * CssRecord).

(** Modelled from the spec: identity lookup in the missing [CompilationResult]. *)
Fixpoint getCssRecord (k : RecordKey) (R : CompilationResult) : option CssRecord :=
  match R with
  | [] => None
  | (k', r) :: R' => if key_eqb k k' then Some r else getCssRecord k R'
  end.

(** Modelled from the spec: storing a record of the missing
    [CompilationResult] under its identity; a new identity goes last. *)
Fixpoint setCssRecord (k : RecordKey) (r : CssRecord) (R : CompilationResult)
  : CompilationResult :=
  match R with
  | [] => [(k, r)]
  | (k', r') :: R' =>
      if key_eqb k k' then (k, r) :: R' else (k', r') :: setCssRecord k r R'
  end.

Section Compile.
Variable hooks : HookRegistry.
Context {Mangler : Type}.
Variable getMangledSelector : option string -> Mangler -> string * Mangler.

(** The regular-expression engine: all matches of a pattern in a content,
    left to right. *)
Context {Pattern : Type}.
Variable exec : Pattern -> string -> list RegExpMatch.

(** The construction of a [MacroMatch] from a match object and the
    compiler-level context: the active scope and the component alias
    table. *)
Variable buildMatch : RegExpMatch -> option string -> ComponentTable -> MacroMatch.

(** Step 1 of [compile]: the content after variable substitution, and the
    component definitions among the directives that the content-option
    processors extract from the raw content. *)
Variable preprocess : string -> string.
Variable componentDefinitions : string -> list (string * list string).

(** The ordered macro pattern table and the compiler-level scope. *)
Variable macros : list (Pattern * Handler).
Variable compilerScope : option string.

(** Modelled from the spec: [add] of the missing [SelectorProperties]:
    no-op on a present name, otherwise the hook's result is merged in. *)
Definition SelectorProperties_add (sp : PropertiesType) (pv : string * string)
  : PropertiesType :=
  if js_in (fst pv) sp then sp
  else obj_spread sp (callHook (cssRecord_addProperty hooks) [pv]).

(** Modelled from the spec: the fresh accumulator of the missing
    [SelectorProperties] after the handler's [add] calls. *)
Definition accumulate (adds : list (string * string)) : PropertiesType :=
  fold_left SelectorProperties_add adds [].

(** Modelled from the spec: the identity under which the missing
    [CompilationResult] keeps the record of a match: the matched token
    escaped, the screen of the match, the scope of the compiler. *)
Definition record_key (m : MacroMatch) : RecordKey :=
  (escape_selector (fullMatch m), mm_screenId m, compilerScope).

(** Modelled from the spec: merging what a match brought into its record
    (step 3 of the missing [Compiler.compile]). *)
Definition merge_match (m : MacroMatch) (props : PropertiesType) (r : CssRecord)
  : CssRecord :=
  addComponents (mm_components m)
    (addPseudoClasses (inr (mm_pseudoClasses m))
       (addProperties hooks props r)).

(** Modelled from the spec: the property emission of the missing
    [Compiler.compile] for a match that declares no component (end of
    step 2, and step 3): the handler fills a fresh accumulator and the
    record of the match's identity is looked up or created, then merged
    into. *)
Definition emit_properties (h : Handler) (m : MacroMatch)
    (st : Mangler * CompilationResult) : completion (Mangler * CompilationResult) :=
  let (mg, R) := st in
  match h m with
  | None => Throw CaptureNotFound st
  | Some adds =>
      let props := accumulate adds in
      let key := record_key m in
      match getCssRecord key R with
      | Some r => Normal (mg, setCssRecord key (merge_match m props r) R)
      | None =>
          let config :=
            mkConfig (mm_screenId m) (Some (fullMatch m)) None None None None
              compilerScope (Some true) in
          match new_CssRecord hooks getMangledSelector config mg with
          | Normal (mg', r) =>
              Normal (mg', setCssRecord key (merge_match m props r) R)
          | Throw e (mg', _) => Throw e (mg', R)
          end
      end
  end.

(** Modelled from the spec: steps 2 and 3 of the missing
    [Compiler.compile] for one match: the [MacroMatch] is constructed from
    the match object, the scope and the active component table; a
    component declaration registers its alias and chain in that table and
    emits nothing; any other match emits its properties. *)
Definition process_match (h : Handler) (raw : RegExpMatch)
    (st : Mangler * ComponentTable * CompilationResult)
  : completion (Mangler * ComponentTable * CompilationResult) :=
  let '(mg, T, R) := st in
  let m := buildMatch raw compilerScope T in
  match declaredComponent m with
  | Some (alias, chain) => Normal (mg, registerComponent alias chain T, R)
  | None =>
      match emit_properties h m (mg, R) with
      | Normal (mg', R') => Normal (mg', T, R')
      | Throw e (mg', R') => Throw e (mg', T, R')
      end
  end.

(** Modelled from the spec: the scan of the missing [Compiler.compile]: a
    list of matches processed in order, stopping at the first throw. *)
Fixpoint process_matches (h : Handler) (raws : list RegExpMatch)
    (st : Mangler * ComponentTable * CompilationResult)
  : completion (Mangler * ComponentTable * CompilationResult) :=
  match raws with
  | [] => Normal st
  | raw :: raws' =>
      match process_match h raw st with
      | Normal st' => process_matches h raws' st'
      | Throw e st' => Throw e st'
      end
  end.

(** Modelled from the spec: the patterns of the table of the missing
    [Compiler], tried in configured order over the content. *)
Fixpoint process_macros (table : list (Pattern * Handler)) (content : string)
    (st : Mangler * ComponentTable * CompilationResult)
  : completion (Mangler * ComponentTable * CompilationResult) :=
  match table with
  | [] => Normal st
  | (pattern, h) :: table' =>
      match process_matches h (exec pattern content) st with
      | Normal st' => process_macros table' content st'
      | Throw e st' => Throw e st'
      end
  end.

(** Modelled from the spec: [compile(content, existingResult?)] of the
    missing [Compiler], run from the state of the compiler (the mangler
    and the active component table); an absent result starts an empty
    one, and the component definitions of the directives are registered
    before the scan. *)
Definition compile (content : string) (existingResult : option CompilationResult)
    (cs : Mangler * ComponentTable)
  : completion (Mangler * ComponentTable * CompilationResult) :=
  let R := match existingResult with Some R => R | None => [] end in
  let T :=
    fold_left (fun T d => registerComponent (fst d) (snd d) T)
      (componentDefinitions content) (snd cs) in
  process_macros macros (preprocess content) (fst cs, T, R).

(** The ordered breakpoint table: screen id and media query. *)
Variable screens : list (Z * string).

(** Modelled from the spec: one screen group of [generateCss] of the
    missing [CompilationResult]: records of that screen in creation
    order, those with [shouldBeGenerated] only. *)
Fixpoint generate_screen (config : CssRecordCompileParametersConfig)
    (sid : option Z) (R : CompilationResult) : string * CompilationResult :=
  match R with
  | [] => (EmptyString, [])
  | (k, r) :: R' =>
      if option_eqb Z.eqb (screenId r) sid && shouldBeGenerated r then
        let (css, r') := generateCss hooks config r in
        let (rest, R'') := generate_screen config sid R' in
        (template css +++ rest, (k, r') :: R'')
      else
        let (rest, R'') := generate_screen config sid R' in
        (rest, (k, r) :: R'')
  end.

(** Modelled from the spec: [generateCss] of the missing
    [CompilationResult]: the default group first, then every screen in
    table order inside its media-query block. *)
Definition result_generateCss (config : CssRecordCompileParametersConfig)
    (R : CompilationResult) : string * CompilationResult :=
  let newLine := if minimize config then EmptyString else newline in
  fold_left
    (fun acc screen =>
       let (css, R') := generate_screen config (Some (fst screen)) (snd acc) in
       (fst acc +++ "@media " +++ snd screen +++ "{" +++ newLine +++ css +++ "}"
          +++ newLine,
        R'))
    screens (generate_screen config None R).
End Compile.

(** Modelled from the spec: the regular-expression engine (missing), for
    the patterns of the shape [prefix(\S+)] of the scenarios: [s] without the
    literal [prefix] it starts with. *)
Fixpoint strip_prefix (prefix s : string) : option string :=
  match prefix, s with
  | EmptyString, _ => Some s
  | String a p', String b s' => if Ascii.eqb a b then strip_prefix p' s' else None
  | String _ _, EmptyString => None
  end.

(** Modelled from the spec: the greedy [\S+] of the missing
    regular-expression engine: the longest run without white space. *)
Fixpoint take_nonspace (s : string) : string :=
  match s with
  | EmptyString => EmptyString
  | String c s' => if is_space c then EmptyString else String c (take_nonspace s')
  end.

(** Modelled from the spec: a match of [prefix(\S+)] at the start of [s] by
    the missing engine: the capture must not be empty. *)
Definition match_here (prefix s : string) : option RegExpMatch :=
  match strip_prefix prefix s with
  | Some rest =>
      match take_nonspace rest with
      | EmptyString => None
      | capture => Some (mkRegExpMatch (prefix +++ capture) [capture])
      end
  | None => None
  end.

(** Modelled from the spec: all matches of [prefix(\S+)] by the missing
    engine, left to right and not overlapping; [skip] counts the characters
    of the last match still to pass. *)
Fixpoint exec_prefix (skip : nat) (prefix s : string) : list RegExpMatch :=
  match s with
  | EmptyString => []
  | String _ s' =>
      match skip with
      | S n => exec_prefix n prefix s'
      | O =>
          match match_here prefix s with
          | Some m => m :: exec_prefix (String.length (matched m) - 1) prefix s'
          | None => exec_prefix 0 prefix s'
          end
      end
  end.

(** Modelled from the spec: the [MacroMatch] of a token without modifiers
    (no screen, no pseudo-class, no component): the matched text and its
    capture groups. *)
Definition plain_match (raw : RegExpMatch) (_ : option string) (_ : ComponentTable)
  : MacroMatch :=
  mkMacroMatch (matched raw) (groups raw) None [] [] None.

End Compiler.

(** ** The canonical selector in the words of the specification *)

Definition is_alphanumeric (c : ascii) : bool :=
  in_range 97 122 c || in_range 65 90 c || in_range 48 57 c.

(** A character that is not alphanumeric, ['-'] or ['_'] is prefixed by a
    backslash. *)
Definition escaped_char (c : ascii) : string :=
  if is_alphanumeric c || Ascii.eqb c "-" || Ascii.eqb c "_"
  then String c EmptyString
  else String backslash (String c EmptyString).

(** The prefix that turns a leading digit [d] into the hex escape [\3d]. *)
Definition hex_escape_prefix : string := String backslash "3".

Definition canonical_selector_spec (s : string) : string :=
  let escaped :=
    fold_right (fun c acc => escaped_char c +++ acc) EmptyString
      (list_ascii_of_string s) in
  match s with
  | String c _ => if in_range 48 57 c then hex_escape_prefix +++ escaped else escaped
  | EmptyString => escaped
  end.

(** ** The bundler's [files] content option

    Source: [packages/bundler/src/Bundler.ts], the processor the constructor
    installs under [contentOptionsProcessors.files].  Of the options object
    it reads and writes the [files] entry only, which is what is modelled. *)

Module Bundler.

(** Leading white space removed. *)
Fixpoint trim_start (s : string) : string :=
  match s with
  | EmptyString => EmptyString
  | String c s' => if is_space c then trim_start s' else s
  end.

Fixpoint string_rev (s : string) : string :=
  match s with
  | EmptyString => EmptyString
  | String c s' => string_rev s' +++ String c EmptyString
  end.

(** [value.trim()] *)
Definition trim (s : string) : string :=
  string_rev (trim_start (string_rev (trim_start s))).

(** The processor: [files] is [contentOptions.files] (absent or a list),
    the result is the list assigned to it. *)
Definition files_processor (files : option (list string)) (optionMatchValue : string)
  : list string :=
  let optionMatchValueToArray :=
    filter (fun value => negb (Nat.eqb (String.length (trim value)) 0))
      (split_space optionMatchValue) in
  match files with Some l => l | None => [] end ++ optionMatchValueToArray.

End Bundler.

(** ** Notions used in the statements *)

(** The lists of a record hold nothing twice. *)
Definition record_wf (r : CssRecord) : Prop :=
  obj_wf (properties r) /\ obj_wf (components r)
  /\ NoDup (pseudoClasses r) /\ NoDup (customSelectors r).

(** The state a call ends in, returned or thrown. *)
Definition final_state {A : Type} (c : completion A) : A :=
  match c with Normal a => a | Throw _ a => a end.

(** Some character of the text is not white space. *)
Definition has_visible_char (s : string) : bool :=
  existsb (fun c => negb (is_space c)) (list_ascii_of_string s).

(** No two white-space characters follow each other. *)
Fixpoint no_adjacent_spaces (s : string) : bool :=
  match s with
  | EmptyString => true
  | String c s' =>
      match s' with
      | EmptyString => true
      | String d _ => negb (is_space c && is_space d) && no_adjacent_spaces s'
      end
  end.

(** The record [configure] reaches when the configuration has a selector. *)
Definition configured (hooks : HookRegistry) (config : CssRecordConfigInterface)
    (s mangled : string)
    (r : CssRecord) : CssRecord :=
  let sel := escape_selector s in
  let sel :=
    if test_line_start_digit true (char_at0 sel)
    then String backslash (String "3" sel) else sel in
  set_changed true
    (addPseudoClasses (inr (or_default (cfg_pseudoClasses config) []))
       (addProperties hooks (or_default (cfg_properties config) [])
          (addComponents (or_default (cfg_components config) [])
             (mkCssRecord (changed r) (cache r)
                (or_default (cfg_shouldBeGenerated config) (shouldBeGenerated r))
                (Some sel) (Some mangled) (cfg_screenId config)
                (scope_or_null (cfg_scope config)) (customSelectors r)
                (components r) (properties r) (pseudoClasses r))))).

(** A pair that the listeners of ['cssRecord:addProperty'] return for some
    candidate pair. *)
Definition hook_output (hooks : HookRegistry) (e : string * string) : Prop :=
  exists p v, In e (callHook (cssRecord_addProperty hooks) [(p, v)]).

(** The listeners of ['cssRecord:addProperty'] settle on the names they
    return: given a pair they returned, they return its name again (with
    whatever value, and whatever else). *)
Definition hook_keeps_name (hooks : HookRegistry) : Prop :=
  forall e,
    hook_output hooks e ->
    obj_has_own (fst e) (callHook (cssRecord_addProperty hooks) [e]) = true.

(** What a record has absorbed of a match: it is dirty and holds every
    property name, pseudo-class and component the match brings. *)
Definition absorbed (props : PropertiesType) (m : Compiler.MacroMatch)
    (r : CssRecord) : Prop :=
  changed r = true
  /\ (forall e, In e (obj_entries props) -> js_in (fst e) (properties r) = true)
  /\ (forall pc, In pc (Compiler.mm_pseudoClasses m) ->
        includes pc (pseudoClasses r) = true)
  /\ (forall e, In e (obj_entries (Compiler.mm_components m)) ->
        js_in (escape_selector (fst e)) (components r) = true).

(** The result already holds everything the match, run through its
    handler, would bring. *)
Definition covered (hooks : HookRegistry) (compilerScope : option string)
    (R : Compiler.CompilationResult)
    (h : Compiler.Handler) (m : Compiler.MacroMatch) : Prop :=
  exists adds r,
    h m = Some adds
    /\ Compiler.getCssRecord (Compiler.record_key compilerScope m) R = Some r
    /\ absorbed (Compiler.accumulate hooks adds) m r.

(** The matches of the content are constructed the same whatever the
    component table holds: no token of the content refers to a component. *)
Definition matches_ignore_table {Pattern : Type}
    (exec : Pattern -> string -> list Compiler.RegExpMatch)
    (buildMatch : Compiler.RegExpMatch -> option string -> Compiler.ComponentTable
                  -> Compiler.MacroMatch)
    (macros : list (Pattern * Compiler.Handler)) (compilerScope : option string)
    (content : string) : Prop :=
  forall pattern h raw,
    In (pattern, h) macros -> In raw (exec pattern content) ->
    forall T T', buildMatch raw compilerScope T = buildMatch raw compilerScope T'.

(** Every record of the result is dirty. *)
Definition all_dirty (R : Compiler.CompilationResult) : Prop :=
  forall k r, Compiler.getCssRecord k R = Some r -> changed r = true.

(** No identity occurs twice and no record holds a property name twice. *)
Definition no_duplicates (R : Compiler.CompilationResult) : Prop :=
  NoDup (map fst R) /\ forall k r, In (k, r) R -> obj_wf (properties r).

(** The text [addSelector] stores for its arguments. *)
Definition stored_selector (sel : string) (pseudoClass : option string) : string :=
  match pseudoClass with
  | Some pc =>
      if String.eqb pc EmptyString then escape_selector sel
      else escape_selector sel +++ ":" +++ pc
  | None => escape_selector sel
  end.

(** The text is empty or starts with a character that is not white space. *)
Definition starts_visible (s : string) : bool :=
  match s with
  | EmptyString => true
  | String c _ => negb (is_space c)
  end.

(** ** Examples *)

(** A record with a scope, a custom selector, a component and two
    pseudo-classes. *)
Definition scoped_pseudo_example : CssRecord :=
  mkCssRecord true None true (Some "s") (Some "a") None (Some "#app ") ["article"]
    [("btn", ["x y"])] [] ["hover"; "focus"].

(** A mangler for the examples: a counter, the identifier is its value. *)
Definition counting_mangler (_ : option string) (n : nat) : string * nat :=
  (String (ascii_of_nat (97 + n)) EmptyString, S n).

(** A listener that expands the shorthand [mx] into the two longhands. *)
Definition expand_mx (payload : PropertiesType) : PropertiesType :=
  match obj_get "mx" payload with
  | Some v => [("margin-left", v); ("margin-right", v)]
  | None => payload
  end.

(** The record of the hover scenario. *)
Definition hover_example : CssRecord :=
  mkCssRecord true None true (Some "m\:10px") (Some "a") None None [] []
    [("margin", "10px")] ["hover"].

(** A record with one custom selector and two pseudo-classes. *)
Definition two_pseudo_example : CssRecord :=
  mkCssRecord true None true (Some "s") (Some "a") None None ["article"] [] []
    ["hover"; "focus"].

(** The record of the legacy round-trip example. *)
Definition legacy_example : Legacy.CssRecord :=
  Legacy.new_CssRecord (Legacy.OneSelector "m:10px") [("margin", "10px")] ["hover"].

(** The handler of the scenario: it adds [margin] with the first capture. *)
Definition margin_handler : Compiler.Handler :=
  fun m =>
    match Compiler.getCapture 0 m with
    | Some capture => Some [("margin", capture)]
    | None => None
    end.

(** The macro table of the scenario: the pattern [m:(\S+)], written by its
    prefix. *)
Definition single_letter_macros : list (string * Compiler.Handler) :=
  [("m:", margin_handler)].

(** A compiler state without its component table. *)
Definition drop_table {Mangler : Type}
    (c : completion (Mangler * Compiler.ComponentTable * Compiler.CompilationResult))
  : completion (Mangler * Compiler.CompilationResult) :=
  match c with
  | Normal (mg, _, R) => Normal (mg, R)
  | Throw e (mg, _, R) => Throw e (mg, R)
  end.

(** The compiler of the scenario: no listener, no scope, no directive, no
    component. *)
Definition compile_single_letter (content : string)
    (existing : option Compiler.CompilationResult) (mg : nat)
  : completion (nat * Compiler.CompilationResult) :=
  drop_table
    (Compiler.compile no_hooks counting_mangler (Compiler.exec_prefix 0)
       Compiler.plain_match (fun s => s) (fun _ => []) single_letter_macros None
       content existing (mg, [])).

(** The text the specification gives for the scenario, and the text
    [generateCss] returns. *)
Definition scenario_text_of_spec : string :=
  ".m\:10px{" +++ newline +++ tab +++ "margin:10px" +++ newline +++ "}" +++ newline.

Definition scenario_text : string :=
  ".m\:10px{" +++ newline +++ tab +++ "margin: 10px" +++ newline +++ "}" +++ newline.

(** The result of compiling a content with a repeated token. *)
Definition repeated_tokens_result : nat * Compiler.CompilationResult :=
  Eval cbv in
    match compile_single_letter "m:10px m:5px m:10px" None 0 with
    | Normal st => st
    | Throw _ st => st
    end.

(** The hover record after [generateCss] with minimizing and mangling:
    clean, its cache present. *)
Definition cached_hover_example : CssRecord :=
  mkCssRecord false (Some ".a:hover{margin:10px}") true (Some "m\:10px") (Some "a")
    None None [] [] [("margin", "10px")] ["hover"].

(** A configuration with a screen and nothing else. *)
Definition screen_only_config : CssRecordConfigInterface :=
  mkConfig (Some 3%Z) None None None None None None None.

(** A listener that renames what it is given: [p0] comes back as [p1],
    [p1] as [k], and [p2] brings [k] along. *)
Definition renaming_listener (payload : PropertiesType) : PropertiesType :=
  match payload with
  | [(p, v)] =>
      if String.eqb p "p0" then [("p1", v)]
      else if String.eqb p "p1" then [("k", v)]
      else if String.eqb p "p2" then [("p2", v); ("k", v)]
      else payload
  | _ => payload
  end.

Definition renaming_hooks : HookRegistry := mkHooks [renaming_listener] [].

(** A handler that adds [p0] and [p2]. *)
Definition two_adds_handler : Compiler.Handler :=
  fun _ => Some [("p0", "1"); ("p2", "2")].

(** The compiler of the scenario with the renaming listener and the
    handler above under the pattern [m:(\S+)]. *)
Definition compile_renaming (content : string)
    (existing : option Compiler.CompilationResult) (mg : nat)
  : completion (nat * Compiler.CompilationResult) :=
  drop_table
    (Compiler.compile renaming_hooks counting_mangler (Compiler.exec_prefix 0)
       Compiler.plain_match (fun s => s) (fun _ => []) [("m:", two_adds_handler)]
       None content existing (mg, [])).

(** A construction of matches that reads the component table: a token
    [@alias] declares the alias with an empty chain, any other token
    belongs to the components registered so far. *)
Definition component_match (raw : Compiler.RegExpMatch) (_ : option string)
    (T : Compiler.ComponentTable) : Compiler.MacroMatch :=
  match Compiler.strip_prefix "@" (Compiler.matched raw) with
  | Some alias =>
      Compiler.mkMacroMatch (Compiler.matched raw) (Compiler.groups raw) None [] []
        (Some (alias, []))
  | None =>
      Compiler.mkMacroMatch (Compiler.matched raw) (Compiler.groups raw) None [] T None
  end.

(** The compiler with the patterns [m:(\S+)] and [@(\S+)] whose matches
    are constructed by [component_match]. *)
Definition compile_components (content : string)
    (existing : option Compiler.CompilationResult)
    (cs : nat * Compiler.ComponentTable)
  : completion (nat * Compiler.ComponentTable * Compiler.CompilationResult) :=
  Compiler.compile no_hooks counting_mangler (Compiler.exec_prefix 0)
    component_match (fun s => s) (fun _ => [])
    [("m:", margin_handler); ("@", fun _ => Some [])] None content existing cs.

(** * Properties *)

(** ** Lists of strings *)

Lemma includes_true_iff (x : string) (l : list string) :
  includes x l = true <-> In x l.
Proof.
  unfold includes. rewrite existsb_exists. split.
  - intros [y [Hin Heq]]. apply String.eqb_eq in Heq. now subst.
  - intros Hin. exists x. split; [assumption | apply String.eqb_refl].
Qed.

Lemma includes_app (x : string) (l1 l2 : list string) :
  includes x (l1 ++ l2) = includes x l1 || includes x l2.
Proof. unfold includes. apply existsb_app. Qed.

Lemma includes_last (x : string) (l : list string) : includes x (l ++ [x]) = true.
Proof. rewrite includes_app. simpl. rewrite String.eqb_refl. apply orb_true_iff. right. reflexivity. Qed.

(** ** Dictionaries *)

Section ObjectFacts.
Context {V : Type}.
Implicit Types (o a b : Obj V) (k q : string) (v : V).

Lemma obj_get_set_same k v o : obj_get k (obj_set k v o) = Some v.
Proof.
  induction o as [|[k' v'] o IH]; simpl.
  - now rewrite String.eqb_refl.
  - destruct (String.eqb k k') eqn:E; simpl.
    + now rewrite String.eqb_refl.
    + now rewrite E.
Qed.

Lemma obj_get_set_other k q v o :
  q <> k -> obj_get q (obj_set k v o) = obj_get q o.
Proof.
  intros Hne. apply String.eqb_neq in Hne.
  induction o as [|[k' v'] o IH]; simpl.
  - now rewrite Hne.
  - destruct (String.eqb k k') eqn:E; simpl.
    + apply String.eqb_eq in E. subst k'. now rewrite Hne.
    + now rewrite IH.
Qed.

Lemma obj_set_keys k v o :
  map fst (obj_set k v o)
  = if obj_has_own k o then map fst o else map fst o ++ [k].
Proof.
  unfold obj_has_own.
  induction o as [|[k' v'] o IH]; simpl.
  - reflexivity.
  - destruct (String.eqb k k') eqn:E; simpl.
    + apply String.eqb_eq in E. now subst.
    + rewrite IH. now destruct (obj_get k o).
Qed.

Lemma obj_get_none_keys k o : obj_get k o = None <-> ~ In k (map fst o).
Proof.
  induction o as [|[k' v'] o IH]; simpl.
  - tauto.
  - destruct (String.eqb k k') eqn:E.
    + apply String.eqb_eq in E. subst. split; [discriminate | tauto].
    + apply String.eqb_neq in E. rewrite IH. split.
      * intros H [H1 | H1]; [now apply E | now apply H].
      * tauto.
Qed.

Lemma obj_has_own_keys k o : obj_has_own k o = true <-> In k (map fst o).
Proof.
  unfold obj_has_own. destruct (obj_get k o) eqn:E.
  - split; [intros _ | reflexivity].
    destruct (in_dec string_dec k (map fst o)) as [H | H]; [assumption |].
    apply obj_get_none_keys in H. congruence.
  - apply obj_get_none_keys in E. split; [discriminate | tauto].
Qed.

Lemma obj_set_wf k v o : obj_wf o -> obj_wf (obj_set k v o).
Proof.
  unfold obj_wf. intros H. rewrite obj_set_keys.
  destruct (obj_has_own k o) eqn:E; [assumption |].
  apply NoDup_app; [assumption | repeat constructor; simpl; tauto |].
  intros x Hx [Hk | []]. subst x.
  apply obj_has_own_keys in Hx. congruence.
Qed.

Lemma fold_set_wf (es : list (string * V)) a :
  obj_wf a -> obj_wf (fold_left (fun acc e => obj_set (fst e) (snd e) acc) es a).
Proof.
  revert a. induction es as [|e es IH]; intros a H; simpl; [assumption |].
  apply IH. now apply obj_set_wf.
Qed.

Lemma obj_spread_wf a b : obj_wf a -> obj_wf (obj_spread a b).
Proof. apply fold_set_wf. Qed.

Lemma obj_get_in k v o : obj_wf o -> (obj_get k o = Some v <-> In (k, v) o).
Proof.
  unfold obj_wf.
  induction o as [|[k' v'] o IH]; simpl; intros Hwf.
  - split; [discriminate | tauto].
  - inversion Hwf as [|? ? Hnotin Hwf']; subst.
    destruct (String.eqb k k') eqn:E.
    + apply String.eqb_eq in E. subst k'. split.
      * intros H. left. congruence.
      * intros [H | H]; [congruence |].
        exfalso. apply Hnotin. now apply (in_map fst) in H.
    + apply String.eqb_neq in E. rewrite (IH Hwf'). split.
      * tauto.
      * intros [H | H]; [congruence | assumption].
Qed.

Lemma insert_indexed_perm (e : N * (string * V)) l :
  Permutation (insert_indexed e l) (e :: l).
Proof.
  induction l as [|e' l IH]; simpl.
  - reflexivity.
  - destruct (N.ltb (fst e) (fst e')).
    + reflexivity.
    + rewrite IH. apply perm_swap.
Qed.

(** Enumeration reorders the entries and loses none. *)
Lemma obj_entries_perm o : Permutation (obj_entries o) o.
Proof.
  unfold obj_entries.
  induction o as [|[k v] o IH]; simpl.
  - reflexivity.
  - destruct (array_index k) eqn:E; simpl.
    + rewrite insert_indexed_perm. simpl. now rewrite IH.
    + rewrite <- Permutation_middle. now rewrite IH.
Qed.

Lemma obj_entries_wf o : obj_wf o -> obj_wf (obj_entries o).
Proof.
  unfold obj_wf. intros H.
  eapply Permutation_NoDup; [| exact H].
  apply Permutation_map. symmetry. apply obj_entries_perm.
Qed.

Lemma obj_get_entries k o : obj_wf o -> obj_get k (obj_entries o) = obj_get k o.
Proof.
  intros Hwf.
  destruct (obj_get k o) as [v|] eqn:E.
  - apply obj_get_in; [now apply obj_entries_wf |].
    apply obj_get_in in E; [| assumption].
    eapply Permutation_in; [symmetry; apply obj_entries_perm | assumption].
  - apply obj_get_none_keys. apply obj_get_none_keys in E.
    intros H. apply E.
    eapply Permutation_in; [apply Permutation_map, obj_entries_perm | assumption].
Qed.

Lemma obj_get_fold_set (es : Obj V) a q :
  obj_wf es ->
  obj_get q (fold_left (fun acc e => obj_set (fst e) (snd e) acc) es a)
  = match obj_get q es with Some w => Some w | None => obj_get q a end.
Proof.
  unfold obj_wf. revert a.
  induction es as [|[k v] es IH]; intros a Hwf; simpl; [reflexivity |].
  inversion Hwf as [|? ? Hnotin Hwf']; subst.
  rewrite (IH _ Hwf').
  destruct (String.eqb q k) eqn:E.
  - apply String.eqb_eq in E. subst q.
    apply obj_get_none_keys in Hnotin. rewrite Hnotin.
    apply obj_get_set_same.
  - apply String.eqb_neq in E. now rewrite obj_get_set_other.
Qed.

(** Reading [{...a, ...b}]: the value of [b] where [b] has the key. *)
Lemma obj_get_spread a b q :
  obj_wf b ->
  obj_get q (obj_spread a b)
  = match obj_get q b with Some w => Some w | None => obj_get q a end.
Proof.
  intros Hwf. unfold obj_spread.
  rewrite obj_get_fold_set by now apply obj_entries_wf.
  now rewrite obj_get_entries.
Qed.

Lemma obj_has_own_set_mono k q v o :
  obj_has_own q o = true -> obj_has_own q (obj_set k v o) = true.
Proof.
  intros H. apply obj_has_own_keys. apply obj_has_own_keys in H.
  rewrite obj_set_keys. destruct (obj_has_own k o); [assumption |].
  apply in_or_app. now left.
Qed.

Lemma obj_has_own_fold_mono (es : list (string * V)) a q :
  obj_has_own q a = true ->
  obj_has_own q (fold_left (fun acc e => obj_set (fst e) (snd e) acc) es a) = true.
Proof.
  revert a. induction es as [|e es IH]; intros a H; simpl; [assumption |].
  apply IH. now apply obj_has_own_set_mono.
Qed.

Lemma obj_has_own_fold_new (es : list (string * V)) a q :
  In q (map fst es) ->
  obj_has_own q (fold_left (fun acc e => obj_set (fst e) (snd e) acc) es a) = true.
Proof.
  revert a. induction es as [|e es IH]; intros a H; simpl in *; [tauto |].
  destruct H as [H | H].
  - subst q. apply obj_has_own_fold_mono.
    unfold obj_has_own. now rewrite obj_get_set_same.
  - now apply IH.
Qed.

(** Keys only accumulate under spread. *)
Lemma js_in_spread_left a b q : js_in q a = true -> js_in q (obj_spread a b) = true.
Proof.
  unfold js_in. intros H. apply orb_true_iff in H. apply orb_true_iff.
  destruct H as [H | H]; [left | now right].
  now apply obj_has_own_fold_mono.
Qed.

Lemma js_in_spread_right a b q :
  obj_has_own q b = true -> js_in q (obj_spread a b) = true.
Proof.
  unfold js_in. intros H. apply orb_true_iff. left.
  apply obj_has_own_fold_new. apply obj_has_own_keys in H.
  eapply Permutation_in; [| exact H].
  apply Permutation_map. symmetry. apply obj_entries_perm.
Qed.
End ObjectFacts.

(** ** Frame properties of the mutators *)

Lemma callHook_nil {A : Type} (x : A) : callHook [] x = x.
Proof. reflexivity. Qed.

Section Frames.
Variable hooks : HookRegistry.

Lemma addProperty_present p v r :
  js_in p (properties r) = true -> addProperty hooks p v r = r.
Proof. unfold addProperty. now intros ->. Qed.

Lemma addProperty_absent p v r :
  js_in p (properties r) = false ->
  addProperty hooks p v r
  = set_properties
      (obj_spread (properties r) (callHook (cssRecord_addProperty hooks) [(p, v)]))
      (set_changed true r).
Proof. unfold addProperty. now intros ->. Qed.

Lemma addProperty_frame p v r :
  let r' := addProperty hooks p v r in
  cache r' = cache r /\ shouldBeGenerated r' = shouldBeGenerated r
  /\ selector r' = selector r /\ mangledSelector r' = mangledSelector r
  /\ screenId r' = screenId r /\ scope r' = scope r
  /\ customSelectors r' = customSelectors r /\ components r' = components r
  /\ pseudoClasses r' = pseudoClasses r.
Proof.
  unfold addProperty. destruct (js_in p (properties r)); simpl; repeat split.
Qed.

Lemma addProperty_changed p v r :
  addProperty hooks p v r = r \/ changed (addProperty hooks p v r) = true.
Proof.
  unfold addProperty. destruct (js_in p (properties r)); [now left | now right].
Qed.

Lemma addProperty_keeps_changed p v r :
  changed r = true -> changed (addProperty hooks p v r) = true.
Proof. intros H. destruct (addProperty_changed p v r) as [-> | ->]; auto. Qed.

Lemma addProperty_mono p v q r :
  js_in q (properties r) = true ->
  js_in q (properties (addProperty hooks p v r)) = true.
Proof.
  intros H. unfold addProperty.
  destruct (js_in p (properties r)); [assumption |].
  simpl. now apply js_in_spread_left.
Qed.

Lemma addProperty_wf p v r :
  obj_wf (properties r) -> obj_wf (properties (addProperty hooks p v r)).
Proof.
  intros H. unfold addProperty.
  destruct (js_in p (properties r)); [assumption |].
  simpl. now apply obj_spread_wf.
Qed.

(** A property that holds of the record and that every step of
    [addProperties] keeps, holds at the end. *)
Lemma addProperties_ind (P : CssRecord -> Prop) props r :
  P r ->
  (forall p v x, P x -> P (addProperty hooks p v (set_changed true x))) ->
  P (addProperties hooks props r).
Proof.
  unfold addProperties. intros H0 Hstep.
  revert r H0. induction (obj_entries props) as [|e es IH]; intros r H0; simpl.
  - assumption.
  - apply IH. now apply Hstep.
Qed.

Lemma addProperties_frame props r :
  let r' := addProperties hooks props r in
  cache r' = cache r /\ shouldBeGenerated r' = shouldBeGenerated r
  /\ selector r' = selector r /\ mangledSelector r' = mangledSelector r
  /\ screenId r' = screenId r /\ scope r' = scope r
  /\ customSelectors r' = customSelectors r /\ components r' = components r
  /\ pseudoClasses r' = pseudoClasses r.
Proof.
  apply addProperties_ind.
  - repeat split.
  - intros p v x Hx.
    pose proof (addProperty_frame p v (set_changed true x)) as Hf. simpl in Hf.
    intuition congruence.
Qed.

Lemma addProperties_mono props q r :
  js_in q (properties r) = true ->
  js_in q (properties (addProperties hooks props r)) = true.
Proof.
  intros H. apply addProperties_ind; [assumption |].
  intros p v x Hx. now apply addProperty_mono.
Qed.

Lemma addProperties_wf props r :
  obj_wf (properties r) -> obj_wf (properties (addProperties hooks props r)).
Proof.
  intros H. apply addProperties_ind; [assumption |].
  intros p v x Hx. now apply addProperty_wf.
Qed.

Lemma addProperties_keeps_changed props r :
  changed r = true -> changed (addProperties hooks props r) = true.
Proof.
  intros H. apply addProperties_ind; [assumption |].
  intros p v x _. now apply addProperty_keeps_changed.
Qed.

Lemma addProperties_changed props r :
  addProperties hooks props r = r \/ changed (addProperties hooks props r) = true.
Proof.
  unfold addProperties.
  destruct (obj_entries props) as [|e es]; [now left | right].
  simpl.
  assert (H : changed (addProperty hooks (fst e) (snd e) (set_changed true r)) = true)
    by now apply addProperty_keeps_changed.
  revert H. generalize (addProperty hooks (fst e) (snd e) (set_changed true r)).
  induction es as [|e' es IH]; intros x Hx; simpl; [assumption |].
  apply IH. now apply addProperty_keeps_changed.
Qed.
End Frames.

Lemma addPseudoClass_frame r pc :
  let r' := addPseudoClass r pc in
  cache r' = cache r /\ shouldBeGenerated r' = shouldBeGenerated r
  /\ selector r' = selector r /\ mangledSelector r' = mangledSelector r
  /\ screenId r' = screenId r /\ scope r' = scope r
  /\ customSelectors r' = customSelectors r /\ components r' = components r
  /\ properties r' = properties r.
Proof.
  unfold addPseudoClass. destruct (includes pc (pseudoClasses r)); simpl; repeat split.
Qed.

Lemma addPseudoClass_changed r pc :
  addPseudoClass r pc = r \/ changed (addPseudoClass r pc) = true.
Proof.
  unfold addPseudoClass. destruct (includes pc (pseudoClasses r)); [now left | now right].
Qed.

Lemma addPseudoClass_mono r pc q :
  includes q (pseudoClasses r) = true ->
  includes q (pseudoClasses (addPseudoClass r pc)) = true.
Proof.
  intros H. unfold addPseudoClass.
  destruct (includes pc (pseudoClasses r)); [assumption |].
  simpl. rewrite includes_app, H. reflexivity.
Qed.

Lemma addPseudoClass_added r pc :
  includes pc (pseudoClasses (addPseudoClass r pc)) = true.
Proof.
  unfold addPseudoClass.
  destruct (includes pc (pseudoClasses r)) eqn:E; [assumption |].
  simpl. apply includes_last.
Qed.

Lemma addPseudoClasses_ind (P : CssRecord -> Prop) arg r :
  P r -> (forall x pc, P x -> P (addPseudoClass x pc)) ->
  P (addPseudoClasses arg r).
Proof.
  unfold addPseudoClasses. intros H0 Hstep.
  generalize (match arg with inl s => [s] | inr l => l end).
  intros l. revert r H0. induction l as [|pc l IH]; intros r H0; simpl.
  - assumption.
  - apply IH. now apply Hstep.
Qed.

Lemma addPseudoClasses_frame arg r :
  let r' := addPseudoClasses arg r in
  cache r' = cache r /\ shouldBeGenerated r' = shouldBeGenerated r
  /\ selector r' = selector r /\ mangledSelector r' = mangledSelector r
  /\ screenId r' = screenId r /\ scope r' = scope r
  /\ customSelectors r' = customSelectors r /\ components r' = components r
  /\ properties r' = properties r.
Proof.
  apply addPseudoClasses_ind.
  - repeat split.
  - intros x pc Hx. pose proof (addPseudoClass_frame x pc) as Hf. simpl in Hf.
    intuition congruence.
Qed.

Lemma addPseudoClasses_keeps_changed arg r :
  changed r = true -> changed (addPseudoClasses arg r) = true.
Proof.
  intros H. apply addPseudoClasses_ind; [assumption |].
  intros x pc Hx. destruct (addPseudoClass_changed x pc) as [-> | ->]; auto.
Qed.

Lemma addPseudoClasses_changed arg r :
  addPseudoClasses arg r = r \/ changed (addPseudoClasses arg r) = true.
Proof.
  unfold addPseudoClasses.
  generalize (match arg with inl s => [s] | inr l => l end). intros l.
  revert r. induction l as [|pc l IH]; intros r; simpl; [now left |].
  destruct (addPseudoClass_changed r pc) as [E | E].
  - rewrite E. apply IH.
  - right. apply (addPseudoClasses_keeps_changed (inr l)) in E. exact E.
Qed.

Lemma addPseudoClasses_mono arg r q :
  includes q (pseudoClasses r) = true ->
  includes q (pseudoClasses (addPseudoClasses arg r)) = true.
Proof.
  intros H. apply addPseudoClasses_ind; [assumption |].
  intros x pc Hx. now apply addPseudoClass_mono.
Qed.

Lemma addComponent_frame sel chain r :
  let r' := addComponent sel chain r in
  cache r' = cache r /\ shouldBeGenerated r' = shouldBeGenerated r
  /\ selector r' = selector r /\ mangledSelector r' = mangledSelector r
  /\ screenId r' = screenId r /\ scope r' = scope r
  /\ customSelectors r' = customSelectors r /\ properties r' = properties r
  /\ pseudoClasses r' = pseudoClasses r.
Proof.
  unfold addComponent.
  destruct (js_in (escape_selector sel) (components r)); simpl; repeat split.
Qed.

Lemma addComponent_changed sel chain r :
  addComponent sel chain r = r \/ changed (addComponent sel chain r) = true.
Proof.
  unfold addComponent.
  destruct (js_in (escape_selector sel) (components r)); [now left | now right].
Qed.

Lemma addComponent_mono sel chain r q :
  js_in q (components r) = true ->
  js_in q (components (addComponent sel chain r)) = true.
Proof.
  intros H. unfold addComponent.
  destruct (js_in (escape_selector sel) (components r)); [assumption |].
  simpl. unfold js_in in *. apply orb_true_iff in H. apply orb_true_iff.
  destruct H as [H | H]; [left | now right].
  now apply obj_has_own_set_mono.
Qed.

Lemma addComponent_added sel chain r :
  js_in (escape_selector sel) (components (addComponent sel chain r)) = true.
Proof.
  unfold addComponent.
  destruct (js_in (escape_selector sel) (components r)) eqn:E; [assumption |].
  simpl. unfold js_in, obj_has_own. now rewrite obj_get_set_same.
Qed.

Lemma addComponents_ind (P : CssRecord -> Prop) comps r :
  P r -> (forall sel chain x, P x -> P (addComponent sel chain x)) ->
  P (addComponents comps r).
Proof.
  unfold addComponents. intros H0 Hstep.
  revert r H0. induction (obj_entries comps) as [|e es IH]; intros r H0; simpl.
  - assumption.
  - apply IH. now apply Hstep.
Qed.

Lemma addComponents_frame comps r :
  let r' := addComponents comps r in
  cache r' = cache r /\ shouldBeGenerated r' = shouldBeGenerated r
  /\ selector r' = selector r /\ mangledSelector r' = mangledSelector r
  /\ screenId r' = screenId r /\ scope r' = scope r
  /\ customSelectors r' = customSelectors r /\ properties r' = properties r
  /\ pseudoClasses r' = pseudoClasses r.
Proof.
  apply addComponents_ind.
  - repeat split.
  - intros sel chain x Hx. pose proof (addComponent_frame sel chain x) as Hf.
    simpl in Hf. intuition congruence.
Qed.

Lemma addComponents_keeps_changed comps r :
  changed r = true -> changed (addComponents comps r) = true.
Proof.
  intros H. apply addComponents_ind; [assumption |].
  intros sel chain x Hx. destruct (addComponent_changed sel chain x) as [-> | ->]; auto.
Qed.

Lemma addComponents_changed comps r :
  addComponents comps r = r \/ changed (addComponents comps r) = true.
Proof.
  unfold addComponents.
  revert r. induction (obj_entries comps) as [|e es IH]; intros r; simpl; [now left |].
  destruct (addComponent_changed (fst e) (snd e) r) as [E | E].
  - rewrite E. apply IH.
  - right. clear IH. revert E. generalize (addComponent (fst e) (snd e) r).
    induction es as [|e' es IH]; intros x Hx; simpl; [assumption |].
    apply IH. destruct (addComponent_changed (fst e') (snd e') x) as [-> | ->]; auto.
Qed.

Lemma addComponents_mono comps r q :
  js_in q (components r) = true ->
  js_in q (components (addComponents comps r)) = true.
Proof.
  intros H. apply addComponents_ind; [assumption |].
  intros sel chain x Hx. now apply addComponent_mono.
Qed.

(** ** [configure] *)

Section Configure.
Variable hooks : HookRegistry.
Context {Mangler : Type}.
Variable getMangledSelector : option string -> Mangler -> string * Mangler.

Local Abbreviation configured := (configured hooks).

Lemma config_keys_selector config s :
  cfg_selector config = Some s -> Nat.eqb (config_keys config) 0 = false.
Proof.
  destruct config as [a b c d e f g h]. simpl. intros ->.
  now destruct a, c, d, e, f, g, h.
Qed.

Lemma configure_empty config mg r :
  config_keys config = 0 ->
  configure hooks getMangledSelector config (mg, r) = Normal (mg, r).
Proof. unfold configure. now intros ->. Qed.

Lemma configure_missing_selector config mg r :
  config_keys config <> 0 -> cfg_selector config = None ->
  configure hooks getMangledSelector config (mg, r)
  = Throw TypeError
      (snd (getMangledSelector None mg),
       mkCssRecord (changed r) (cache r) (shouldBeGenerated r) (selector r)
         (Some (fst (getMangledSelector None mg))) (cfg_screenId config) (scope r)
         (customSelectors r) (components r) (properties r) (pseudoClasses r)).
Proof.
  intros Hk Hs. unfold configure.
  apply Nat.eqb_neq in Hk. rewrite Hk, Hs.
  now destruct (getMangledSelector None mg).
Qed.

Lemma configure_with_selector config mg r s :
  cfg_selector config = Some s ->
  configure hooks getMangledSelector config (mg, r)
  = Normal (snd (getMangledSelector (Some s) mg),
            configured config s (fst (getMangledSelector (Some s) mg)) r).
Proof.
  intros Hs. unfold configure.
  rewrite (config_keys_selector _ _ Hs), Hs.
  now destruct (getMangledSelector (Some s) mg).
Qed.

Lemma configured_selector config s mangled r :
  selector (configured config s mangled r)
  = Some (if test_line_start_digit true (char_at0 (escape_selector s))
          then String backslash (String "3" (escape_selector s))
          else escape_selector s).
Proof.
  unfold configured. simpl.
  match goal with |- selector (addPseudoClasses ?a ?x) = _ =>
    destruct (addPseudoClasses_frame a x) as (_ & _ & -> & _) end.
  match goal with |- selector (addProperties _ ?a ?x) = _ =>
    destruct (addProperties_frame hooks a x) as (_ & _ & -> & _) end.
  match goal with |- selector (addComponents ?a ?x) = _ =>
    destruct (addComponents_frame a x) as (_ & _ & -> & _) end.
  reflexivity.
Qed.
End Configure.

(** ** The escaping of selectors *)

Lemma is_digit_ident c : is_digit c = true -> is_ident_char c = true.
Proof. unfold is_ident_char. intros ->. now rewrite !orb_true_r. Qed.

Lemma escaped_char_ident c :
  escaped_char c
  = if is_ident_char c then String c EmptyString
    else String backslash (String c EmptyString).
Proof.
  unfold escaped_char, is_ident_char, is_alphanumeric, is_digit.
  assert (H1 : Ascii.eqb c "-" = N.eqb (code c) 45).
  { destruct (Ascii.eqb c "-") eqn:E.
    - apply Ascii.eqb_eq in E. now subst.
    - symmetry. apply N.eqb_neq. intros H. apply Ascii.eqb_neq in E. apply E.
      unfold code in H. rewrite <- (ascii_N_embedding c), H. reflexivity. }
  assert (H2 : Ascii.eqb c "_" = N.eqb (code c) 95).
  { destruct (Ascii.eqb c "_") eqn:E.
    - apply Ascii.eqb_eq in E. now subst.
    - symmetry. apply N.eqb_neq. intros H. apply Ascii.eqb_neq in E. apply E.
      unfold code in H. rewrite <- (ascii_N_embedding c), H. reflexivity. }
  rewrite H1, H2.
  destruct (N.eqb (code c) 45), (N.eqb (code c) 95), (in_range 97 122 c),
    (in_range 65 90 c), (in_range 48 57 c); reflexivity.
Qed.

Lemma escape_selector_spec s :
  escape_selector s
  = fold_right (fun c acc => escaped_char c +++ acc) EmptyString
      (list_ascii_of_string s).
Proof.
  induction s as [|c s IH]; simpl; [reflexivity |].
  rewrite escaped_char_ident, <- IH.
  now destruct (is_ident_char c).
Qed.

(** The test on the first character of the escaped text sees a digit exactly
    when the input starts with one. *)
Lemma leading_digit_test s :
  test_line_start_digit true (char_at0 (escape_selector s))
  = match s with String c _ => is_digit c | EmptyString => false end.
Proof.
  destruct s as [|c s]; simpl; [reflexivity |].
  destruct (is_ident_char c) eqn:E; simpl.
  - now rewrite orb_false_r.
  - destruct (is_digit c) eqn:D; [| reflexivity].
    apply is_digit_ident in D. congruence.
Qed.

(** C7: for every configuration that carries a selector [s], [configure]
    returns and the selector it stores is [s] with every character that is
    not alphanumeric, ['-'] or ['_'] prefixed by a backslash, itself
    prefixed by the hex-escape prefix [\\3] when [s] begins with a digit. *)
Theorem configure_stores_canonical_selector :
  forall (hooks : HookRegistry) (Mangler : Type)
         (getMangledSelector : option string -> Mangler -> string * Mangler)
         (config : CssRecordConfigInterface) (mg : Mangler) (r : CssRecord)
         (s : string),
    cfg_selector config = Some s ->
    exists st,
      configure hooks getMangledSelector config (mg, r) = Normal st
      /\ selector (snd st) = Some (canonical_selector_spec s).
Proof.
  intros hooks Mangler gms config mg r s Hs.
  eexists. split; [exact (configure_with_selector hooks gms config mg r s Hs) |].
  cbn [snd]. rewrite configured_selector, leading_digit_test.
  unfold canonical_selector_spec, hex_escape_prefix.
  rewrite <- escape_selector_spec.
  destruct s as [|c s]; [reflexivity |].
  unfold is_digit. now destruct (in_range 48 57 c).
Qed.

Lemma configure_stores_canonical_selector_witness :
  exists st,
    configure no_hooks counting_mangler
      (mkConfig None (Some "10px.a_b-c") None None None None None None)
      (0, initial_record) = Normal st
    /\ selector (snd st) = Some "\310px\.a_b-c".
Proof.
  exact (configure_stores_canonical_selector no_hooks nat counting_mangler
           (mkConfig None (Some "10px.a_b-c") None None None None None None)
           0 initial_record "10px.a_b-c" eq_refl).
Defined.

(** C10: [configure] returns without touching anything on the empty
    configuration; on a non-empty configuration without a selector it hands
    the missing selector to the mangler, stores the result and the screen,
    and throws a [TypeError] at the [replace] call; it returns exactly when
    the configuration is empty or carries a selector. *)
Theorem configure_needs_selector :
  forall (hooks : HookRegistry) (Mangler : Type)
         (getMangledSelector : option string -> Mangler -> string * Mangler)
         (config : CssRecordConfigInterface) (mg : Mangler) (r : CssRecord),
    (config_keys config = 0 ->
       configure hooks getMangledSelector config (mg, r) = Normal (mg, r))
    /\ (config_keys config <> 0 -> cfg_selector config = None ->
          configure hooks getMangledSelector config (mg, r)
          = Throw TypeError
              (snd (getMangledSelector None mg),
               mkCssRecord (changed r) (cache r) (shouldBeGenerated r) (selector r)
                 (Some (fst (getMangledSelector None mg))) (cfg_screenId config)
                 (scope r) (customSelectors r) (components r) (properties r)
                 (pseudoClasses r)))
    /\ ((exists st, configure hooks getMangledSelector config (mg, r) = Normal st)
        <-> (config_keys config = 0 \/ cfg_selector config <> None)).
Proof.
  intros hooks Mangler gms config mg r.
  split; [apply configure_empty |].
  split; [apply configure_missing_selector |].
  split.
  - intros [st Hst].
    destruct (Nat.eq_dec (config_keys config) 0) as [Hk | Hk]; [now left | right].
    intros Hs. rewrite (configure_missing_selector hooks gms config mg r Hk Hs) in Hst.
    discriminate.
  - intros [Hk | Hs].
    + eexists. now apply configure_empty.
    + destruct (cfg_selector config) as [s|] eqn:E; [| congruence].
      eexists. exact (configure_with_selector hooks gms config mg r s E).
Qed.

Lemma configure_needs_selector_witness :
  configure no_hooks counting_mangler empty_config (0, initial_record)
  = Normal (0, initial_record)
  /\ configure no_hooks counting_mangler
       (mkConfig (Some 3%Z) None None None None None None None) (0, initial_record)
     = Throw TypeError
         (1, mkCssRecord false None false None (Some "a") (Some 3%Z) None [] [] [] []).
Proof.
  pose proof (configure_needs_selector no_hooks nat counting_mangler empty_config
                0 initial_record) as (H1 & _).
  pose proof (configure_needs_selector no_hooks nat counting_mangler
                (mkConfig (Some 3%Z) None None None None None None None)
                0 initial_record) as (_ & H2 & _).
  split.
  - apply H1. reflexivity.
  - apply H2; [discriminate | reflexivity].
Defined.

(** ** [addProperty] *)

Lemma legacy_addProperty_present p v (lr : Legacy.CssRecord) :
  Legacy.hasProperty p (Legacy.addProperty p v lr) = true.
Proof.
  unfold Legacy.addProperty.
  destruct (Legacy.hasProperty p lr) eqn:E; [assumption |].
  unfold Legacy.hasProperty, obj_has_own. simpl. now rewrite obj_get_set_same.
Qed.

(** With no listener registered the name given to [addProperty] is present
    afterwards, under the value of the call that introduced it. *)
Lemma addProperty_no_hooks_adds p v r :
  js_in p (properties (addProperty no_hooks p v r)) = true
  /\ (js_in p (properties r) = false ->
      obj_get p (properties (addProperty no_hooks p v r)) = Some v).
Proof.
  unfold addProperty.
  destruct (js_in p (properties r)) eqn:E; [split; [assumption | discriminate] |].
  simpl. unfold callHook. simpl. unfold obj_spread.
  assert (Hwf : obj_wf (V:=string) [(p, v)]).
  { unfold obj_wf. simpl. repeat constructor. simpl. tauto. }
  assert (Hget : obj_get p (fold_left (fun acc e => obj_set (fst e) (snd e) acc)
                              (obj_entries [(p, v)]) (properties r)) = Some v).
  { rewrite obj_get_fold_set by now apply obj_entries_wf.
    rewrite obj_get_entries by assumption. simpl. now rewrite String.eqb_refl. }
  split; [| intros _; exact Hget].
  unfold js_in, obj_has_own. now rewrite Hget.
Qed.

(** C1: once the name [p] is among the properties after a first
    [addProperty p v1], a second [addProperty p v2] leaves the whole record,
    and so the stored value, as the first call left it; the legacy class
    behaves the same. *)
Theorem addProperty_first_write_wins :
  forall (hooks : HookRegistry) (p v1 v2 : string) (r : CssRecord)
         (lr : Legacy.CssRecord),
    js_in p (properties (addProperty hooks p v1 r)) = true ->
    addProperty hooks p v2 (addProperty hooks p v1 r) = addProperty hooks p v1 r
    /\ obj_get p (properties (addProperty hooks p v2 (addProperty hooks p v1 r)))
       = obj_get p (properties (addProperty hooks p v1 r))
    /\ Legacy.addProperty p v2 (Legacy.addProperty p v1 lr)
       = Legacy.addProperty p v1 lr.
Proof.
  intros hooks p v1 v2 r lr H.
  assert (E : addProperty hooks p v2 (addProperty hooks p v1 r)
              = addProperty hooks p v1 r) by now apply addProperty_present.
  split; [exact E |]. split; [now rewrite E |].
  unfold Legacy.addProperty at 1. now rewrite legacy_addProperty_present.
Qed.

(** The scenario of the specification: margin=10px, then margin=20px. *)
Lemma addProperty_first_write_wins_witness :
  obj_get "margin"
    (properties (addProperty no_hooks "margin" "20px"
                   (addProperty no_hooks "margin" "10px" initial_record)))
  = Some "10px"
  /\ obj_get "margin"
       (Legacy.properties (Legacy.addProperty "margin" "20px"
                             (Legacy.addProperty "margin" "10px" Legacy.fresh)))
     = Some "10px".
Proof.
  destruct (addProperty_first_write_wins no_hooks "margin" "10px" "20px"
              initial_record Legacy.fresh eq_refl) as (_ & H1 & H2).
  rewrite H1, H2. split; reflexivity.
Defined.

(** C8: when [p] is not yet present, [addProperty p v] replaces the
    properties by the spread of the old ones and of the whole hook result
    and sets the flag; a key of the hook result that the record already had
    takes the hook's value, whatever its name. *)
Theorem addProperty_merges_hook_result :
  forall (hooks : HookRegistry) (p v : string) (r : CssRecord),
    js_in p (properties r) = false ->
    obj_wf (callHook (cssRecord_addProperty hooks) [(p, v)]) ->
    let hookResult := callHook (cssRecord_addProperty hooks) [(p, v)] in
    let r' := addProperty hooks p v r in
    properties r' = obj_spread (properties r) hookResult
    /\ changed r' = true
    /\ (forall q,
          obj_get q (properties r')
          = match obj_get q hookResult with
            | Some w => Some w
            | None => obj_get q (properties r)
            end)
    /\ (forall q w old,
          obj_get q hookResult = Some w -> obj_get q (properties r) = Some old ->
          obj_get q (properties r') = Some w).
Proof.
  intros hooks p v r Habsent Hwf hookResult r'.
  subst r'. rewrite (addProperty_absent hooks p v r Habsent). simpl.
  fold hookResult.
  assert (Hget : forall q,
             obj_get q (obj_spread (properties r) hookResult)
             = match obj_get q hookResult with
               | Some w => Some w
               | None => obj_get q (properties r)
               end) by (intros q; now apply obj_get_spread).
  repeat split; [exact Hget |].
  intros q w old Hq _. now rewrite Hget, Hq.
Qed.

(** [margin-left] was set first; adding [mx] overwrites it. *)
Lemma addProperty_merges_hook_result_witness :
  let hooks := mkHooks [expand_mx] [] in
  let r := addProperty hooks "margin-left" "1px" initial_record in
  obj_get "margin-left" (properties r) = Some "1px"
  /\ properties (addProperty hooks "mx" "2px" r)
     = [("margin-left", "2px"); ("margin-right", "2px")].
Proof.
  intros hooks r. split; [reflexivity |].
  assert (Hwf : obj_wf (callHook (cssRecord_addProperty hooks) [("mx", "2px")])).
  { unfold obj_wf. simpl. repeat constructor; simpl; intuition discriminate. }
  destruct (addProperty_merges_hook_result hooks "mx" "2px" r eq_refl Hwf)
    as (H & _).
  rewrite H. reflexivity.
Defined.

(** ** Legacy [serialize] and [hydrate] *)

(** C6 (as the code behaves): [serialize] writes the pseudo-classes only when
    the properties have a truthy entry named "length"; for every other
    record the snapshot has no [pseudoClasses] and hydrating it into a fresh
    record throws a [TypeError] after the selectors were added, so nothing
    of the pseudo-classes and properties is restored. *)
Theorem legacy_hydrate_serialize_throws :
  forall R : Legacy.CssRecord,
    Legacy.properties_length_truthy R = false ->
    Legacy.snap_pseudoClasses (Legacy.serialize R) = None
    /\ Legacy.hydrate (Legacy.serialize R) Legacy.fresh
       = Throw TypeError
           (fold_left (fun r s => Legacy.addSelector s None r)
              (map unescape_selector (Legacy.selectors R)) Legacy.fresh).
Proof.
  intros R H. unfold Legacy.hydrate, Legacy.serialize. simpl.
  rewrite H. split; reflexivity.
Qed.

Lemma legacy_hydrate_serialize_throws_witness :
  Legacy.snap_pseudoClasses (Legacy.serialize legacy_example) = None
  /\ Legacy.hydrate (Legacy.serialize legacy_example) Legacy.fresh
     = Throw TypeError (Legacy.mkCssRecord ["m\:10px"] [] []).
Proof.
  exact (legacy_hydrate_serialize_throws legacy_example eq_refl).
Defined.

(** [deserialize] does not throw, but it stores the unescaped selectors of
    the snapshot as they are and falls back to no pseudo-class. *)
Lemma legacy_deserialize_serialize_example :
  Legacy.deserialize (Legacy.serialize legacy_example)
  = Legacy.mkCssRecord ["m:10px"] [("margin", "10px")] []
  /\ Legacy.selectors legacy_example = ["m\:10px"]
  /\ Legacy.pseudoClasses legacy_example = ["hover"].
Proof. repeat split. Qed.

(** ** Pseudo-classes in [generateCss] *)

(** C4 (as the code behaves): with the pseudo-classes hover and focus and the
    custom selector [article], the class selector gets both suffixes but the
    custom selector only the last one: [article:hover] is not generated. *)
Theorem generateCss_custom_selector_last_pseudo_only :
  selector_variants (mkCompileConfig false false) two_pseudo_example
  = ["article:focus"; ".s:hover"; ".s:focus"]
  /\ ~ In "article:hover"
       (selector_variants (mkCompileConfig false false) two_pseudo_example)
  /\ fst (generateCss no_hooks (mkCompileConfig true false) two_pseudo_example)
     = Some "article:focus,.s:hover,.s:focus{}".
Proof.
  split; [reflexivity |]. split; [| reflexivity].
  simpl. intros [H | [H | [H | []]]]; discriminate.
Qed.

(** The hover scenario of the specification: the only selector is the
    suffixed one. *)
Lemma generateCss_hover_scenario :
  selector_variants (mkCompileConfig false false) hover_example = [".m\:10px:hover"].
Proof. reflexivity. Qed.

(** Without pseudo-classes the variants are the custom selectors, the class
    selector and the component selectors, as they are. *)
Lemma selector_variants_no_pseudo config r :
  pseudoClasses r = [] ->
  selector_variants config r
  = map (fun s => template_scope (scope r) +++ s) (customSelectors r)
    ++ map (fun s => template_scope (scope r) +++ "." +++ s)
         (template (if mangleSelectors config then mangledSelector r else selector r)
          :: componentsSelectors_of (components r)).
Proof. unfold selector_variants, custom_and_class. now intros ->. Qed.

(** ** The text cache *)

Lemma length_append (s1 s2 : string) :
  String.length (s1 +++ s2) = String.length s1 + String.length s2.
Proof. induction s1 as [|c s1 IH]; simpl; [reflexivity | now rewrite IH]. Qed.

Lemma render_not_empty config r : String.eqb (render config r) EmptyString = false.
Proof.
  apply String.eqb_neq. intros H. apply (f_equal String.length) in H.
  unfold render in H. rewrite !length_append in H. simpl in H. lia.
Qed.

Lemma regenerate_clean config r :
  changed (regenerate config r) = false
  /\ cache (regenerate config r) = Some (render config r)
  /\ cache_missing (cache (regenerate config r)) = false.
Proof.
  unfold regenerate. simpl. repeat split. apply render_not_empty.
Qed.

Lemma refresh_cache_clean config r :
  changed (refresh_cache config r) = false
  /\ cache_missing (cache (refresh_cache config r)) = false.
Proof.
  unfold refresh_cache.
  destruct (changed r || cache_missing (cache r)) eqn:E.
  - destruct (regenerate_clean config r) as (H1 & _ & H3). now split.
  - apply orb_false_iff in E. exact E.
Qed.

Section GenerateCss.
Variable hooks : HookRegistry.

(** The listeners of ['cssRecord:cssGenerated'] leave the record as it is. *)
Hypothesis observers : forall r, callHook (cssRecord_cssGenerated hooks) r = r.

Lemma generateCss_refresh config r :
  generateCss hooks config r
  = (cache (refresh_cache config r), refresh_cache config r).
Proof. unfold generateCss. now rewrite observers. Qed.

Lemma generateCss_cached config r :
  changed r = false -> cache_missing (cache r) = false ->
  generateCss hooks config r = (cache r, r).
Proof.
  intros H1 H2. rewrite generateCss_refresh. unfold refresh_cache.
  now rewrite H1, H2.
Qed.

Lemma generateCss_regenerates config r :
  changed r = true \/ cache_missing (cache r) = true ->
  generateCss hooks config r = (Some (render config r), regenerate config r).
Proof.
  intros H. rewrite generateCss_refresh. unfold refresh_cache.
  replace (changed r || cache_missing (cache r)) with true
    by (symmetry; apply orb_true_iff; exact H).
  now destruct (regenerate_clean config r) as (_ & -> & _).
Qed.

Lemma generateCss_clean config r :
  changed (snd (generateCss hooks config r)) = false
  /\ cache_missing (cache (snd (generateCss hooks config r))) = false.
Proof. rewrite generateCss_refresh. apply refresh_cache_clean. Qed.

Lemma generateCss_again c1 c2 r :
  generateCss hooks c2 (snd (generateCss hooks c1 r)) = generateCss hooks c1 r.
Proof.
  destruct (generateCss_clean c1 r) as [H1 H2].
  rewrite (generateCss_cached c2 _ H1 H2).
  now rewrite (generateCss_refresh c1 r).
Qed.
End GenerateCss.

(** The dirty flag where the code keeps it: every listed mutator either
    leaves the record exactly as it was or leaves it with [changed] set
    ([configure]: when it returns); provided
    the ['cssRecord:cssGenerated'] listeners do not themselves mutate the
    record, [generateCss] returns the cache untouched when [changed] is
    false and the cache is present, otherwise stores and returns a fresh
    rendering; the flag is clear afterwards; and a second call, under any
    configuration, returns the same text and leaves the same state through
    the cached branch. *)
Theorem dirty_flag_cache :
  forall (hooks : HookRegistry) (Mangler : Type)
         (getMangledSelector : option string -> Mangler -> string * Mangler),
    (forall r, callHook (cssRecord_cssGenerated hooks) r = r) ->
    (forall p v r,
        addProperty hooks p v r = r \/ changed (addProperty hooks p v r) = true)
    /\ (forall props r,
          addProperties hooks props r = r
          \/ changed (addProperties hooks props r) = true)
    /\ (forall arg r,
          addPseudoClasses arg r = r \/ changed (addPseudoClasses arg r) = true)
    /\ (forall sel chain r,
          addComponent sel chain r = r
          \/ changed (addComponent sel chain r) = true)
    /\ (forall comps r,
          addComponents comps r = r \/ changed (addComponents comps r) = true)
    /\ (forall config mg r st,
          configure hooks getMangledSelector config (mg, r) = Normal st ->
          st = (mg, r) \/ changed (snd st) = true)
    /\ (forall config r,
          changed r = false -> cache_missing (cache r) = false ->
          generateCss hooks config r = (cache r, r))
    /\ (forall config r,
          changed r = true \/ cache_missing (cache r) = true ->
          generateCss hooks config r = (Some (render config r), regenerate config r))
    /\ (forall config r, changed (snd (generateCss hooks config r)) = false)
    /\ (forall c1 c2 r,
          let r1 := snd (generateCss hooks c1 r) in
          (changed r1 || cache_missing (cache r1) = false)
          /\ generateCss hooks c2 r1 = generateCss hooks c1 r).
Proof.
  intros hooks Mangler gms Hobs.
  split; [apply addProperty_changed |].
  split; [apply addProperties_changed |].
  split; [apply addPseudoClasses_changed |].
  split; [apply addComponent_changed |].
  split; [apply addComponents_changed |].
  split.
  { intros config mg r st Hst.
    destruct (Nat.eq_dec (config_keys config) 0) as [Hk | Hk].
    - rewrite (configure_empty hooks gms config mg r Hk) in Hst.
      left. congruence.
    - destruct (cfg_selector config) as [s|] eqn:Hs.
      + rewrite (configure_with_selector hooks gms config mg r s Hs) in Hst.
        right. injection Hst as <-. reflexivity.
      + rewrite (configure_missing_selector hooks gms config mg r Hk Hs) in Hst.
        discriminate. }
  split; [intros; now apply generateCss_cached |].
  split; [intros; now apply generateCss_regenerates |].
  split; [intros; now apply generateCss_clean |].
  intros c1 c2 r r1. subst r1. split.
  - destruct (generateCss_clean hooks Hobs c1 r) as [-> ->]. reflexivity.
  - now apply generateCss_again.
Qed.

Lemma dirty_flag_cache_witness :
  generateCss no_hooks (mkCompileConfig true false) hover_example
  = (Some ".m\:10px:hover{margin:10px}",
     mkCssRecord false (Some ".m\:10px:hover{margin:10px}") true (Some "m\:10px")
       (Some "a") None None [] [] [("margin", "10px")] ["hover"])
  /\ generateCss no_hooks (mkCompileConfig false false)
       (snd (generateCss no_hooks (mkCompileConfig true false) hover_example))
     = generateCss no_hooks (mkCompileConfig true false) hover_example.
Proof.
  destruct (dirty_flag_cache no_hooks nat counting_mangler (fun r => eq_refl))
    as (_ & _ & _ & _ & _ & _ & _ & Hregen & _ & Hagain).
  split.
  - rewrite Hregen by (left; reflexivity). reflexivity.
  - apply (Hagain (mkCompileConfig true false) (mkCompileConfig false false)
             hover_example).
Defined.

(** C3 (where the code departs): on a non-empty configuration without a
    selector, [configure] stores the mangler's identifier and the screen of
    the configuration (lines 166 and 167), then throws at the [replace]
    call of line 168, before line 179 sets [changed]: the flag and the
    cache are as before the call.  A record that was clean with its cache
    present has changed state and is still clean, so [generateCss], under
    any configuration, returns the text rendered before the call. *)
Theorem configure_throw_skips_dirty_flag :
  forall (hooks : HookRegistry) (Mangler : Type)
         (getMangledSelector : option string -> Mangler -> string * Mangler)
         (config : CssRecordConfigInterface) (mg : Mangler) (r : CssRecord),
    (forall r, callHook (cssRecord_cssGenerated hooks) r = r) ->
    config_keys config <> 0 -> cfg_selector config = None ->
    changed r = false -> cache_missing (cache r) = false ->
    exists mg' r',
      configure hooks getMangledSelector config (mg, r) = Throw TypeError (mg', r')
      /\ mangledSelector r' = Some (fst (getMangledSelector None mg))
      /\ screenId r' = cfg_screenId config
      /\ changed r' = false
      /\ cache r' = cache r
      /\ (forall c, generateCss hooks c r' = (cache r, r')).
Proof.
  intros hooks Mangler gms config mg r Hobs Hk Hs Hc Hcache.
  eexists _, _. split; [exact (configure_missing_selector hooks gms config mg r Hk Hs) |].
  cbn [mangledSelector screenId changed cache].
  split; [reflexivity |]. split; [reflexivity |]. split; [assumption |].
  split; [reflexivity |].
  intros c.
  exact (generateCss_cached hooks Hobs c
           (mkCssRecord (changed r) (cache r) (shouldBeGenerated r) (selector r)
              (Some (fst (gms None mg))) (cfg_screenId config) (scope r)
              (customSelectors r) (components r) (properties r) (pseudoClasses r))
           Hc Hcache).
Qed.

Lemma configure_throw_skips_dirty_flag_witness :
  snd (generateCss no_hooks (mkCompileConfig true true) hover_example)
  = cached_hover_example
  /\ exists mg' r',
       configure no_hooks counting_mangler screen_only_config (1, cached_hover_example)
       = Throw TypeError (mg', r')
       /\ r' <> cached_hover_example
       /\ changed r' = false
       /\ fst (generateCss no_hooks (mkCompileConfig true true) r')
          = Some ".a:hover{margin:10px}"
       /\ render (mkCompileConfig true true) r' = ".b:hover{margin:10px}".
Proof.
  split; [reflexivity |].
  destruct (configure_throw_skips_dirty_flag no_hooks nat counting_mangler
              screen_only_config 1 cached_hover_example (fun r => eq_refl)
              ltac:(discriminate) eq_refl eq_refl eq_refl)
    as (mg' & r' & Hrun & Hm & Hs & Hc & Hcache & Hgen).
  exists mg', r'. split; [exact Hrun |].
  split; [intros E; rewrite E in Hs; discriminate Hs |].
  split; [exact Hc |].
  split; [now rewrite Hgen |].
  cbv in Hrun. injection Hrun as _ <-. reflexivity.
Defined.

(** ** [addCustomSelector] and the cache *)

Lemma join_cons_length sep x y l :
  String.length (join sep (x :: y :: l))
  = String.length x + String.length sep + String.length (join sep (y :: l)).
Proof.
  unfold join. change (String.concat sep (x :: y :: l))
    with (x +++ sep +++ String.concat sep (y :: l)).
  rewrite !length_append. lia.
Qed.

(** One more element before a non-empty tail lengthens the joined text by
    the element and a separator. *)
Lemma join_insert_length sep A x b B :
  String.length (join sep (A ++ x :: b :: B))
  = String.length (join sep (A ++ b :: B)) + String.length x + String.length sep.
Proof.
  induction A as [|a A IH].
  - simpl app. rewrite join_cons_length. lia.
  - simpl app.
    destruct (A ++ x :: b :: B) as [|y1 l1] eqn:E1;
      [destruct A; discriminate |].
    destruct (A ++ b :: B) as [|y2 l2] eqn:E2;
      [destruct A; discriminate |].
    rewrite !join_cons_length. rewrite IH. lia.
Qed.

(** What the loop over the pseudo-classes leaves: the custom selectors under
    the last suffix only, the class selectors under every suffix. *)
Lemma pseudo_loop custom sel comps pcs pc acc :
  fold_left (pseudo_step custom sel comps) (pcs ++ [pc]) acc
  = (map (add_suffix (":" +++ pc)) custom,
     snd acc
     ++ flat_map (fun p => (sel +++ ":" +++ p) :: map (add_suffix (":" +++ p)) comps)
          (pcs ++ [pc])).
Proof.
  revert acc. induction pcs as [|p pcs IH]; intros acc; simpl.
  - unfold pseudo_step. now rewrite app_nil_r.
  - rewrite IH. unfold pseudo_step. cbn [snd]. f_equal.
    rewrite <- !app_assoc. reflexivity.
Qed.

Lemma custom_and_class_shape custom sel comps pcs :
  exists f b B,
    forall extra,
      custom_and_class (custom ++ extra) sel comps pcs
      = (map f (custom ++ extra), b :: B).
Proof.
  destruct pcs as [|p pcs] using rev_ind.
  - exists (fun s => s), sel, comps. intros extra. simpl. now rewrite map_id.
  - clear IHpcs.
    destruct (flat_map (fun q => (sel +++ ":" +++ q) :: map (add_suffix (":" +++ q)) comps)
                (pcs ++ [p])) as [|b B] eqn:E.
    + exfalso. destruct pcs; discriminate.
    + exists (add_suffix (":" +++ p)), b, B. intros extra.
      replace (custom_and_class (custom ++ extra) sel comps (pcs ++ [p]))
        with (fold_left (pseudo_step (custom ++ extra) sel comps) (pcs ++ [p]) ([], []))
        by (destruct pcs; reflexivity).
      rewrite pseudo_loop. cbn [snd]. rewrite app_nil_l. now rewrite E.
Qed.

Lemma selector_variants_custom config r :
  selector_variants config r
  = (let '(customSels, classSels) :=
       custom_and_class (customSelectors r)
         (template (if mangleSelectors config then mangledSelector r else selector r))
         (componentsSelectors_of (components r)) (pseudoClasses r) in
     map (fun s => template_scope (scope r) +++ s) customSels
     ++ map (fun s => template_scope (scope r) +++ "." +++ s) classSels).
Proof. reflexivity. Qed.

(** A new custom selector makes every rendering longer. *)
Lemma render_addCustomSelector_longer config sel r :
  includes sel (customSelectors r) = false ->
  String.length (render config r)
  < String.length (render config (addCustomSelector sel r)).
Proof.
  intros Hnew. unfold addCustomSelector. rewrite Hnew.
  unfold render. rewrite !length_append.
  rewrite !selector_variants_custom. simpl.
  destruct (custom_and_class_shape (customSelectors r)
              (template (if mangleSelectors config then mangledSelector r else selector r))
              (componentsSelectors_of (components r)) (pseudoClasses r))
    as (f & b & B & Hshape).
  rewrite (Hshape [sel]).
  pose proof (Hshape []) as H0. rewrite app_nil_r in H0. rewrite H0.
  rewrite !map_app. simpl. rewrite <- app_assoc. simpl.
  rewrite join_insert_length, !length_append.
  destruct (minimize config); simpl; lia.
Qed.

Lemma addCustomSelector_changed sel r :
  changed (addCustomSelector sel r) = changed r
  /\ cache (addCustomSelector sel r) = cache r.
Proof.
  unfold addCustomSelector. destruct (includes sel (customSelectors r)); now split.
Qed.

Lemma pop_blank_chain_idem chain :
  pop_blank_chain (pop_blank_chain chain) = pop_blank_chain chain.
Proof.
  destruct chain as [|c [|d chain]]; simpl; try reflexivity.
  destruct (test_blank_line true c) eqn:E; simpl; [reflexivity | now rewrite E].
Qed.

Section MapValues.
Context {V W : Type}.
Variable f : V -> W.

Local Abbreviation map_values := (map_values f).

Lemma insert_indexed_map_values n k v (l : list (N * (string * V))) :
  insert_indexed (n, (k, f v))
    (map (fun ie => (fst ie, (fst (snd ie), f (snd (snd ie))))) l)
  = map (fun ie => (fst ie, (fst (snd ie), f (snd (snd ie)))))
      (insert_indexed (n, (k, v)) l).
Proof.
  induction l as [|[n' [k' v']] l IH]; simpl; [reflexivity |].
  destruct (N.ltb n n'); simpl; [reflexivity | now rewrite IH].
Qed.

Lemma indexed_entries_map_values (o : Obj V) :
  indexed_entries (map_values o)
  = map (fun ie => (fst ie, (fst (snd ie), f (snd (snd ie))))) (indexed_entries o).
Proof.
  induction o as [|[k v] o IH]; simpl; [reflexivity |].
  destruct (array_index k); [| exact IH].
  rewrite IH. apply insert_indexed_map_values.
Qed.

Lemma obj_entries_map_values (o : Obj V) :
  obj_entries (map_values o) = map_values (obj_entries o).
Proof.
  unfold obj_entries, map_values at 3. rewrite map_app. f_equal.
  - rewrite indexed_entries_map_values, !map_map. reflexivity.
  - unfold named_entries, map_values.
    induction o as [|[k v] o IH]; simpl; [reflexivity |].
    destruct (array_index k); simpl; [exact IH | now rewrite IH].
Qed.
End MapValues.

Lemma componentsSelectors_of_popped comps :
  componentsSelectors_of (popped_components comps) = componentsSelectors_of comps.
Proof.
  unfold componentsSelectors_of, popped_components.
  rewrite obj_entries_map_values. unfold map_values.
  induction (obj_entries comps) as [|e es IH]; simpl; [reflexivity |].
  now rewrite pop_blank_chain_idem, IH.
Qed.

(** Regenerating does not change what a rendering gives. *)
Lemma render_regenerate c config r : render config (regenerate c r) = render config r.
Proof.
  unfold render, selector_variants, regenerate. simpl.
  now rewrite componentsSelectors_of_popped.
Qed.

Lemma render_refresh_cache c config r :
  render config (refresh_cache c r) = render config r.
Proof.
  unfold refresh_cache. destruct (changed r || cache_missing (cache r));
    [apply render_regenerate | reflexivity].
Qed.

Lemma refresh_cache_customSelectors c r :
  customSelectors (refresh_cache c r) = customSelectors r.
Proof.
  unfold refresh_cache. now destruct (changed r || cache_missing (cache r)).
Qed.

(** C9: [addCustomSelector] appends a selector that is not yet there and
    never touches [changed] or the cache.  So, the listeners of
    ['cssRecord:cssGenerated'] being observers, after a [generateCss] the
    call [addCustomSelector] followed by [generateCss] (under any
    configuration) returns the text of the first call and regenerates
    nothing, although a regeneration would give another text; when the
    first call did render, the text returned is the rendering of the record
    without the new selector.  A record whose flag is set is rendered
    afresh. *)
Theorem addCustomSelector_keeps_stale_cache :
  forall (hooks : HookRegistry) (c1 c2 : CssRecordCompileParametersConfig)
         (sel : string) (r : CssRecord),
    (forall x, callHook (cssRecord_cssGenerated hooks) x = x) ->
    includes sel (customSelectors r) = false ->
    let r1 := snd (generateCss hooks c1 r) in
    let r2 := addCustomSelector sel r1 in
    (forall s x,
        changed (addCustomSelector s x) = changed x
        /\ cache (addCustomSelector s x) = cache x)
    /\ customSelectors r2 = customSelectors r ++ [sel]
    /\ changed r2 = false
    /\ generateCss hooks c2 r2 = (fst (generateCss hooks c1 r), r2)
    /\ (forall c, Some (render c r2) <> Some (render c r1))
    /\ (changed r = true \/ cache_missing (cache r) = true ->
        fst (generateCss hooks c2 r2) = Some (render c1 r)
        /\ render c1 r2 <> render c1 r)
    /\ (forall c r3, changed r3 = true ->
        fst (generateCss hooks c r3) = Some (render c r3)).
Proof.
  intros hooks c1 c2 sel r Hobs Hnew r1 r2.
  assert (Hr1 : r1 = refresh_cache c1 r)
    by (subst r1; now rewrite generateCss_refresh).
  assert (Hcust : customSelectors r1 = customSelectors r)
    by (rewrite Hr1; apply refresh_cache_customSelectors).
  assert (Hnew1 : includes sel (customSelectors r1) = false) by now rewrite Hcust.
  destruct (generateCss_clean hooks Hobs c1 r) as [Hclean Hcache].
  fold r1 in Hclean, Hcache.
  destruct (addCustomSelector_changed sel r1) as [Hch2 Hca2]. fold r2 in Hch2, Hca2.
  assert (Hlonger : forall c, render c r2 <> render c r1).
  { intros c E. pose proof (render_addCustomSelector_longer c sel r1 Hnew1) as L.
    fold r2 in L. rewrite E in L. lia. }
  assert (Hgen : generateCss hooks c2 r2 = (fst (generateCss hooks c1 r), r2)).
  { rewrite generateCss_cached; [| assumption | congruence | congruence].
    rewrite Hca2. reflexivity. }
  split; [intros s x; apply addCustomSelector_changed |].
  split.
  { subst r2. unfold addCustomSelector. rewrite Hnew1. simpl. now rewrite Hcust. }
  split; [congruence |].
  split; [exact Hgen |].
  split; [intros c E; injection E; apply Hlonger |].
  split.
  - intros Hdirty. rewrite Hgen. cbn [fst].
    rewrite (generateCss_regenerates hooks Hobs c1 r Hdirty). cbn [fst].
    split; [reflexivity |].
    rewrite <- (render_refresh_cache c1 c1 r), <- Hr1. apply Hlonger.
  - intros c r3 H3. rewrite generateCss_regenerates by (assumption || now left).
    reflexivity.
Qed.

Lemma addCustomSelector_keeps_stale_cache_witness :
  let config := mkCompileConfig true false in
  let r1 := snd (generateCss no_hooks config hover_example) in
  let r2 := addCustomSelector "article" r1 in
  customSelectors r2 = ["article"]
  /\ fst (generateCss no_hooks config r2) = Some ".m\:10px:hover{margin:10px}"
  /\ render config r2 = "article:hover,.m\:10px:hover{margin:10px}".
Proof.
  intros config r1 r2.
  destruct (addCustomSelector_keeps_stale_cache no_hooks config config "article"
              hover_example (fun x => eq_refl) eq_refl)
    as (_ & H1 & _ & H3 & _).
  fold r1 in H1, H3. fold r2 in H1, H3.
  split; [exact H1 |]. split; [| reflexivity].
  rewrite H3. reflexivity.
Defined.

(** ** The compilation result *)

Lemma set_changed_same r : changed r = true -> set_changed true r = r.
Proof. destruct r. simpl. now intros ->. Qed.

Lemma key_eqb_eq k k' : Compiler.key_eqb k k' = true <-> k = k'.
Proof.
  destruct k as [[s z] o], k' as [[s' z'] o']. unfold Compiler.key_eqb. simpl.
  rewrite !andb_true_iff, String.eqb_eq.
  assert (Hz : Compiler.option_eqb Z.eqb z z' = true <-> z = z').
  { destruct z, z'; simpl; try (split; congruence).
    rewrite Z.eqb_eq. split; congruence. }
  assert (Ho : Compiler.option_eqb String.eqb o o' = true <-> o = o').
  { destruct o, o'; simpl; try (split; congruence).
    rewrite String.eqb_eq. split; congruence. }
  rewrite Hz, Ho. split.
  - intros [[-> ->] ->]. reflexivity.
  - intros E. injection E as -> -> ->. auto.
Qed.

Lemma key_eqb_refl k : Compiler.key_eqb k k = true.
Proof. now apply key_eqb_eq. Qed.

Lemma key_eqb_neq k k' : Compiler.key_eqb k k' = false <-> k <> k'.
Proof.
  split.
  - intros H E. apply key_eqb_eq in E. congruence.
  - intros H. destruct (Compiler.key_eqb k k') eqn:E; [| reflexivity].
    apply key_eqb_eq in E. contradiction.
Qed.

Lemma getCssRecord_set_same k r R :
  Compiler.getCssRecord k (Compiler.setCssRecord k r R) = Some r.
Proof.
  induction R as [|[k' r'] R IH]; simpl.
  - now rewrite key_eqb_refl.
  - destruct (Compiler.key_eqb k k') eqn:E; simpl.
    + now rewrite key_eqb_refl.
    + now rewrite E.
Qed.

Lemma getCssRecord_set_other k q r R :
  q <> k ->
  Compiler.getCssRecord q (Compiler.setCssRecord k r R) = Compiler.getCssRecord q R.
Proof.
  intros Hne. apply key_eqb_neq in Hne.
  induction R as [|[k' r'] R IH]; simpl.
  - now rewrite Hne.
  - destruct (Compiler.key_eqb k k') eqn:E; simpl.
    + apply key_eqb_eq in E. subst k'. now rewrite Hne.
    + now rewrite IH.
Qed.

(** Storing back the record that is there changes nothing. *)
Lemma setCssRecord_same k r R :
  Compiler.getCssRecord k R = Some r -> Compiler.setCssRecord k r R = R.
Proof.
  induction R as [|[k' r'] R IH]; simpl; [discriminate |].
  destruct (Compiler.key_eqb k k') eqn:E.
  - apply key_eqb_eq in E. subst k'. intros H. congruence.
  - intros H. now rewrite IH.
Qed.

Lemma getCssRecord_none_keys k R :
  Compiler.getCssRecord k R = None <-> ~ In k (map fst R).
Proof.
  induction R as [|[k' r'] R IH]; simpl.
  - tauto.
  - destruct (Compiler.key_eqb k k') eqn:E.
    + apply key_eqb_eq in E. subst. split; [discriminate | tauto].
    + apply key_eqb_neq in E. rewrite IH. split.
      * intros H [H1 | H1]; [now apply E | now apply H].
      * tauto.
Qed.

Lemma setCssRecord_keys k r R :
  map fst (Compiler.setCssRecord k r R)
  = match Compiler.getCssRecord k R with
    | Some _ => map fst R
    | None => map fst R ++ [k]
    end.
Proof.
  induction R as [|[k' r'] R IH]; simpl; [reflexivity |].
  destruct (Compiler.key_eqb k k') eqn:E; simpl.
  - apply key_eqb_eq in E. now subst.
  - rewrite IH. now destruct (Compiler.getCssRecord k R).
Qed.

Lemma setCssRecord_NoDup k r R :
  NoDup (map fst R) -> NoDup (map fst (Compiler.setCssRecord k r R)).
Proof.
  intros H. rewrite setCssRecord_keys.
  destruct (Compiler.getCssRecord k R) eqn:E; [assumption |].
  apply getCssRecord_none_keys in E.
  apply NoDup_app; [assumption | repeat constructor; simpl; tauto |].
  intros x Hx [Hk | []]. now subst x.
Qed.

Lemma setCssRecord_in k r R e :
  In e (Compiler.setCssRecord k r R) -> e = (k, r) \/ In e R.
Proof.
  induction R as [|[k' r'] R IH]; simpl.
  - intros [H | []]. now left.
  - destruct (Compiler.key_eqb k k'); simpl.
    + intros [H | H]; [now left | right; now right].
    + intros [H | H]; [right; now left |].
      destruct (IH H) as [H' | H']; [now left | right; now right].
Qed.

(** ** Merging a match into a record *)

Section Merge.
Variable hooks : HookRegistry.

Lemma addProperties_noop props r :
  changed r = true ->
  (forall e, In e (obj_entries props) -> js_in (fst e) (properties r) = true) ->
  addProperties hooks props r = r.
Proof.
  unfold addProperties. intros Hc.
  induction (obj_entries props) as [|e es IH]; intros H; simpl; [reflexivity |].
  rewrite (set_changed_same r Hc).
  rewrite addProperty_present by (apply H; now left).
  apply IH. intros e' He'. apply H. now right.
Qed.

Lemma addPseudoClasses_noop l r :
  (forall pc, In pc l -> includes pc (pseudoClasses r) = true) ->
  addPseudoClasses (inr l) r = r.
Proof.
  unfold addPseudoClasses.
  induction l as [|pc l IH]; intros H; simpl; [reflexivity |].
  unfold addPseudoClass at 2. rewrite (H pc) by now left.
  apply IH. intros pc' Hpc'. apply H. now right.
Qed.

Lemma addComponents_noop comps r :
  (forall e, In e (obj_entries comps) ->
     js_in (escape_selector (fst e)) (components r) = true) ->
  addComponents comps r = r.
Proof.
  unfold addComponents.
  induction (obj_entries comps) as [|e es IH]; intros H; simpl; [reflexivity |].
  unfold addComponent at 2. rewrite (H e) by now left.
  apply IH. intros e' He'. apply H. now right.
Qed.

(** A match that a record has absorbed merges into it without effect. *)
Lemma merge_match_noop props m r :
  absorbed props m r -> Compiler.merge_match hooks m props r = r.
Proof.
  intros (Hc & Hp & Hs & Hk). unfold Compiler.merge_match.
  rewrite (addProperties_noop props r Hc Hp).
  rewrite (addPseudoClasses_noop _ r Hs).
  now apply addComponents_noop.
Qed.

Lemma merge_match_frame props m r :
  let r' := Compiler.merge_match hooks m props r in
  (changed r = true -> changed r' = true)
  /\ (forall q, js_in q (properties r) = true -> js_in q (properties r') = true)
  /\ (forall q, includes q (pseudoClasses r) = true ->
        includes q (pseudoClasses r') = true)
  /\ (forall q, js_in q (components r) = true -> js_in q (components r') = true)
  /\ (obj_wf (properties r) -> obj_wf (properties r')).
Proof.
  unfold Compiler.merge_match.
  set (r1 := addProperties hooks props r).
  set (r2 := addPseudoClasses (inr (Compiler.mm_pseudoClasses m)) r1).
  destruct (addProperties_frame hooks props r)
    as (_ & _ & _ & _ & _ & _ & _ & Hc1 & Hs1). fold r1 in Hc1, Hs1.
  destruct (addPseudoClasses_frame (inr (Compiler.mm_pseudoClasses m)) r1)
    as (_ & _ & _ & _ & _ & _ & _ & Hc2 & Hp2). fold r2 in Hc2, Hp2.
  destruct (addComponents_frame (Compiler.mm_components m) r2)
    as (_ & _ & _ & _ & _ & _ & _ & Hp3 & Hs3).
  simpl. repeat split.
  - intros H. apply addComponents_keeps_changed, addPseudoClasses_keeps_changed.
    now apply addProperties_keeps_changed.
  - intros q H. rewrite Hp3, Hp2. now apply addProperties_mono.
  - intros q H. rewrite Hs3. apply addPseudoClasses_mono. now rewrite Hs1.
  - intros q H. apply addComponents_mono. now rewrite Hc2, Hc1.
  - intros H. rewrite Hp3, Hp2. now apply addProperties_wf.
Qed.

Lemma absorbed_merge_mono props m props' m' r :
  absorbed props m r -> absorbed props m (Compiler.merge_match hooks m' props' r).
Proof.
  intros (Hc & Hp & Hs & Hk).
  destruct (merge_match_frame props' m' r) as (Fc & Fp & Fs & Fk & _).
  repeat split; auto.
Qed.

Hypothesis keeps_name : hook_keeps_name hooks.

Lemma addProperty_adds p v r :
  hook_output hooks (p, v) ->
  js_in p (properties (addProperty hooks p v r)) = true.
Proof.
  intros Hout. unfold addProperty.
  destruct (js_in p (properties r)) eqn:E; [assumption |].
  simpl. apply js_in_spread_right. apply (keeps_name (p, v) Hout).
Qed.

Lemma addProperties_adds props r e :
  (forall e', In e' (obj_entries props) -> hook_output hooks e') ->
  In e (obj_entries props) ->
  js_in (fst e) (properties (addProperties hooks props r)) = true.
Proof.
  unfold addProperties. revert r.
  induction (obj_entries props) as [|e' es IH]; intros r Hout H; simpl;
    [contradiction |].
  destruct H as [-> | H]; [| apply IH; [intros; apply Hout; now right | assumption]].
  assert (Hin : js_in (fst e)
                  (properties (addProperty hooks (fst e) (snd e) (set_changed true r)))
                = true).
  { apply addProperty_adds. rewrite <- surjective_pairing. apply Hout. now left. }
  revert Hin. generalize (addProperty hooks (fst e) (snd e) (set_changed true r)).
  clear IH Hout. induction es as [|e' es IH]; intros x Hx; simpl; [assumption |].
  apply IH. now apply addProperty_mono.
Qed.

Lemma addPseudoClasses_adds l r pc :
  In pc l -> includes pc (pseudoClasses (addPseudoClasses (inr l) r)) = true.
Proof.
  unfold addPseudoClasses. revert r.
  induction l as [|pc' l IH]; intros r H; simpl; [contradiction |].
  destruct H as [-> | H]; [| now apply IH].
  apply (addPseudoClasses_mono (inr l)). apply addPseudoClass_added.
Qed.

Lemma addComponents_adds comps r e :
  In e (obj_entries comps) ->
  js_in (escape_selector (fst e)) (components (addComponents comps r)) = true.
Proof.
  unfold addComponents. revert r.
  induction (obj_entries comps) as [|e' es IH]; intros r H; simpl; [contradiction |].
  destruct H as [-> | H]; [| now apply IH].
  pose proof (addComponent_added (fst e) (snd e) r) as Hin.
  revert Hin. generalize (addComponent (fst e) (snd e) r).
  clear IH. induction es as [|e' es IH]; intros x Hx; simpl; [assumption |].
  apply IH. now apply addComponent_mono.
Qed.

Lemma obj_set_in {V : Type} k (v : V) o e :
  In e (obj_set k v o) -> e = (k, v) \/ In e o.
Proof.
  induction o as [|[k' v'] o IH]; simpl.
  - intros [H | []]. now left.
  - destruct (String.eqb k k'); simpl.
    + intros [H | H]; [now left | right; now right].
    + intros [H | H]; [right; now left |].
      destruct (IH H) as [H' | H']; [now left | right; now right].
Qed.

Lemma obj_spread_in {V : Type} (a b : Obj V) e :
  In e (obj_spread a b) -> In e a \/ In e b.
Proof.
  unfold obj_spread. intros H.
  assert (H' : In e a \/ In e (obj_entries b)).
  { revert a H. induction (obj_entries b) as [|e' es IH]; intros a H; simpl in *.
    - now left.
    - destruct (IH _ H) as [H1 | H1]; [| right; now right].
      apply obj_set_in in H1. destruct H1 as [-> | H1]; [| now left].
      right. left. apply surjective_pairing. }
  destruct H' as [H' | H']; [now left | right].
  eapply Permutation_in; [apply obj_entries_perm | exact H'].
Qed.

(** Whatever the accumulator holds came out of the hook. *)
Lemma accumulate_outputs adds e :
  In e (obj_entries (Compiler.accumulate hooks adds)) -> hook_output hooks e.
Proof.
  intros H.
  apply (Permutation_in _ (obj_entries_perm _)) in H.
  unfold Compiler.accumulate in H. revert H.
  assert (Hgen : forall sp,
             (forall x, In x sp -> hook_output hooks x) ->
             forall x, In x (fold_left (Compiler.SelectorProperties_add hooks) adds sp) ->
                       hook_output hooks x).
  { induction adds as [|[p v] adds IH]; intros sp Hsp x Hx; simpl in Hx.
    - now apply Hsp.
    - apply (IH (Compiler.SelectorProperties_add hooks sp (p, v))); [| exact Hx].
      intros y Hy. unfold Compiler.SelectorProperties_add in Hy. simpl in Hy.
      destruct (js_in p sp); [now apply Hsp |].
      apply obj_spread_in in Hy. destruct Hy as [Hy | Hy]; [now apply Hsp |].
      now exists p, v. }
  apply (Hgen [] (fun x Hx => match Hx with end) e).
Qed.

(** After the merge the record has absorbed the match. *)
Lemma merge_match_absorbs props m r :
  (forall e, In e (obj_entries props) -> hook_output hooks e) ->
  changed r = true -> absorbed props m (Compiler.merge_match hooks m props r).
Proof.
  intros Hout Hc. unfold Compiler.merge_match.
  set (r1 := addProperties hooks props r).
  set (r2 := addPseudoClasses (inr (Compiler.mm_pseudoClasses m)) r1).
  destruct (addPseudoClasses_frame (inr (Compiler.mm_pseudoClasses m)) r1)
    as (_ & _ & _ & _ & _ & _ & _ & Hc2 & Hp2). fold r2 in Hc2, Hp2.
  destruct (addComponents_frame (Compiler.mm_components m) r2)
    as (_ & _ & _ & _ & _ & _ & _ & Hp3 & Hs3).
  repeat split.
  - apply addComponents_keeps_changed, addPseudoClasses_keeps_changed.
    now apply addProperties_keeps_changed.
  - intros e He. rewrite Hp3, Hp2. now apply addProperties_adds.
  - intros pc Hpc. rewrite Hs3. now apply addPseudoClasses_adds.
  - intros e He. now apply addComponents_adds.
Qed.
End Merge.

(** ** Compiling twice *)

Lemma getCssRecord_in k r R : Compiler.getCssRecord k R = Some r -> In (k, r) R.
Proof.
  induction R as [|[k' r'] R IH]; simpl; [discriminate |].
  destruct (Compiler.key_eqb k k') eqn:E.
  - apply key_eqb_eq in E. subst k'. intros H. left. congruence.
  - intros H. right. now apply IH.
Qed.

Section CompileFacts.
Variable hooks : HookRegistry.
Context {Mangler : Type}.
Variable getMangledSelector : option string -> Mangler -> string * Mangler.
Variable compilerScope : option string.

Local Abbreviation emit_properties :=
  (Compiler.emit_properties hooks getMangledSelector compilerScope).
Local Abbreviation record_key := (Compiler.record_key compilerScope).
Local Abbreviation covered := (covered hooks compilerScope).

Lemma emit_properties_covered h m mg R :
  covered R h m -> emit_properties h m (mg, R) = Normal (mg, R).
Proof.
  unfold Compiler.emit_properties.
  intros (adds & r & Hh & Hget & Habs).
  rewrite Hh, Hget. rewrite (merge_match_noop hooks _ m r Habs).
  now rewrite (setCssRecord_same _ _ _ Hget).
Qed.

Lemma emit_properties_inv h m mg R mg' R' :
  emit_properties h m (mg, R) = Normal (mg', R') ->
  exists adds r0,
    h m = Some adds
    /\ R' = Compiler.setCssRecord (record_key m)
              (Compiler.merge_match hooks m (Compiler.accumulate hooks adds) r0) R
    /\ (Compiler.getCssRecord (record_key m) R = Some r0
        \/ (Compiler.getCssRecord (record_key m) R = None
            /\ changed r0 = true /\ properties r0 = [])).
Proof.
  unfold Compiler.emit_properties.
  destruct (h m) as [adds|] eqn:Hh; [| discriminate].
  destruct (Compiler.getCssRecord (record_key m) R) as [r|] eqn:Hget.
  - intros H. injection H as <- <-. exists adds, r. auto.
  - unfold new_CssRecord.
    rewrite (configure_with_selector hooks getMangledSelector
               (mkConfig (Compiler.mm_screenId m) (Some (Compiler.fullMatch m))
                  None None None None compilerScope (Some true))
               mg initial_record (Compiler.fullMatch m) eq_refl).
    intros H. injection H as <- <-.
    eexists adds, _. split; [reflexivity |]. split; [reflexivity |].
    right. repeat split; reflexivity.
Qed.

(** The emission returns as soon as the handler indexes no capture its
    match lacks. *)
Lemma emit_properties_returns h m st :
  h m <> None -> exists st', emit_properties h m st = Normal st'.
Proof.
  intros Hh. destruct st as [mg R]. unfold Compiler.emit_properties.
  destruct (h m) as [adds|]; [| congruence].
  destruct (Compiler.getCssRecord (record_key m) R); [eauto |].
  unfold new_CssRecord.
  rewrite (configure_with_selector hooks getMangledSelector
             (mkConfig (Compiler.mm_screenId m) (Some (Compiler.fullMatch m))
                None None None None compilerScope (Some true))
             mg initial_record (Compiler.fullMatch m) eq_refl).
  eauto.
Qed.

Hypothesis keeps_name : hook_keeps_name hooks.

Lemma emit_properties_invariants h m mg R mg' R' :
  emit_properties h m (mg, R) = Normal (mg', R') ->
  all_dirty R -> no_duplicates R ->
  all_dirty R' /\ no_duplicates R'
  /\ (forall h0 m0, covered R h0 m0 -> covered R' h0 m0)
  /\ covered R' h m.
Proof.
  intros Hrun Hdirty [Hnd Hwf].
  destruct (emit_properties_inv h m mg R mg' R' Hrun)
    as (adds & r0 & Hh & -> & Hr0).
  set (props := Compiler.accumulate hooks adds).
  set (r1 := Compiler.merge_match hooks m props r0).
  assert (Hc0 : changed r0 = true).
  { destruct Hr0 as [Hget | (_ & Hc & _)]; [now apply (Hdirty _ _ Hget) | assumption]. }
  assert (Hwf0 : obj_wf (properties r0)).
  { destruct Hr0 as [Hget | (_ & _ & Hp)].
    - apply (Hwf (record_key m)). now apply getCssRecord_in.
    - rewrite Hp. constructor. }
  assert (Habs : absorbed props m r1).
  { apply merge_match_absorbs; [assumption | | assumption].
    intros e He. now apply (accumulate_outputs hooks adds). }
  destruct (merge_match_frame hooks props m r0) as (_ & _ & _ & _ & Fwf).
  split.
  { intros k r Hk. destruct (Compiler.key_eqb k (record_key m)) eqn:E.
    - apply key_eqb_eq in E. subst k. rewrite getCssRecord_set_same in Hk.
      injection Hk as <-. apply Habs.
    - apply key_eqb_neq in E. rewrite getCssRecord_set_other in Hk by assumption.
      now apply (Hdirty k). }
  split.
  { split; [now apply setCssRecord_NoDup |].
    intros k r Hin. apply setCssRecord_in in Hin. destruct Hin as [E | Hin].
    - injection E as -> ->. now apply Fwf.
    - now apply (Hwf k). }
  split.
  { intros h0 m0 (adds0 & r & Hh0 & Hget0 & Habs0).
    destruct (Compiler.key_eqb (record_key m0) (record_key m)) eqn:E.
    - apply key_eqb_eq in E. rewrite E in *.
      destruct Hr0 as [Hget | (Hnone & _)]; [| congruence].
      assert (r = r0) by congruence. subst r.
      exists adds0, r1. split; [assumption |]. split.
      * rewrite E. apply getCssRecord_set_same.
      * now apply absorbed_merge_mono.
    - apply key_eqb_neq in E. exists adds0, r. split; [assumption |].
      split; [| assumption]. now rewrite getCssRecord_set_other. }
  exists adds, r1. split; [assumption |]. split; [| assumption].
  apply getCssRecord_set_same.
Qed.
End CompileFacts.

Section CompileTwice.
Variable hooks : HookRegistry.
Context {Mangler : Type}.
Variable getMangledSelector : option string -> Mangler -> string * Mangler.
Context {Pattern : Type}.
Variable exec : Pattern -> string -> list Compiler.RegExpMatch.
Variable buildMatch :
  Compiler.RegExpMatch -> option string -> Compiler.ComponentTable -> Compiler.MacroMatch.
Variable compilerScope : option string.

Local Abbreviation emit_properties :=
  (Compiler.emit_properties hooks getMangledSelector compilerScope).
Local Abbreviation process_match :=
  (Compiler.process_match hooks getMangledSelector buildMatch compilerScope).
Local Abbreviation process_matches :=
  (Compiler.process_matches hooks getMangledSelector buildMatch compilerScope).
Local Abbreviation process_macros :=
  (Compiler.process_macros hooks getMangledSelector exec buildMatch compilerScope).
Local Abbreviation covered := (covered hooks compilerScope).
Local Abbreviation built raw := (buildMatch raw compilerScope []).

(** What one match does to the state, by what is constructed from it. *)
Lemma process_match_inv h raw mg T R mg' T' R' :
  process_match h raw (mg, T, R) = Normal (mg', T', R') ->
  (exists alias chain,
     Compiler.declaredComponent (buildMatch raw compilerScope T) = Some (alias, chain)
     /\ mg' = mg /\ T' = Compiler.registerComponent alias chain T /\ R' = R)
  \/ (Compiler.declaredComponent (buildMatch raw compilerScope T) = None
      /\ T' = T
      /\ emit_properties h (buildMatch raw compilerScope T) (mg, R) = Normal (mg', R')).
Proof.
  unfold Compiler.process_match.
  destruct (Compiler.declaredComponent (buildMatch raw compilerScope T))
    as [[alias chain]|] eqn:Hd.
  - intros H. injection H as <- <- <-. left. now exists alias, chain.
  - destruct (emit_properties h (buildMatch raw compilerScope T) (mg, R))
      as [[mg1 R1]|e [mg1 R1]] eqn:E; [| discriminate].
    intros H. injection H as <- <- <-. right. auto.
Qed.

(** A match whose properties the result already holds changes at most the
    component table. *)
Lemma process_match_covered h raw mg T R :
  (Compiler.declaredComponent (buildMatch raw compilerScope T) = None ->
   covered R h (buildMatch raw compilerScope T)) ->
  exists T', process_match h raw (mg, T, R) = Normal (mg, T', R).
Proof.
  intros Hcov. unfold Compiler.process_match.
  destruct (Compiler.declaredComponent (buildMatch raw compilerScope T))
    as [[alias chain]|] eqn:Hd.
  - eauto.
  - rewrite (emit_properties_covered hooks getMangledSelector compilerScope
               h _ mg R (Hcov eq_refl)).
    eauto.
Qed.

(** The scan returns as soon as no handler indexes a capture its match
    lacks. *)
Lemma process_matches_returns h raws :
  (forall raw T, In raw raws ->
     Compiler.declaredComponent (buildMatch raw compilerScope T) <> None
     \/ h (buildMatch raw compilerScope T) <> None) ->
  forall st, exists st', process_matches h raws st = Normal st'.
Proof.
  induction raws as [|raw raws IH]; intros H st; [now exists st |].
  cbn [Compiler.process_matches].
  assert (Hm : exists st1, process_match h raw st = Normal st1).
  { destruct st as [[mg T] R]. unfold Compiler.process_match.
    destruct (Compiler.declaredComponent (buildMatch raw compilerScope T))
      as [[alias chain]|] eqn:Hd; [eauto |].
    destruct (H raw T (or_introl eq_refl)) as [Hd' | Hh]; [congruence |].
    destruct (emit_properties_returns hooks getMangledSelector compilerScope
                h _ (mg, R) Hh) as [[mg1 R1] ->].
    eauto. }
  destruct Hm as [st1 ->]. apply IH. intros raw' T' Hin. apply H. now right.
Qed.

Lemma process_macros_returns content table :
  (forall pattern h raw T,
     In (pattern, h) table -> In raw (exec pattern content) ->
     Compiler.declaredComponent (buildMatch raw compilerScope T) <> None
     \/ h (buildMatch raw compilerScope T) <> None) ->
  forall st, exists st', process_macros table content st = Normal st'.
Proof.
  induction table as [|[pattern h] table IH]; intros H st; [now exists st |].
  cbn [Compiler.process_macros].
  destruct (process_matches_returns h (exec pattern content)
              (fun raw T Hin => H pattern h raw T (or_introl eq_refl) Hin) st)
    as [st1 ->].
  apply IH. intros p' h' raw' T' Hin Hm. apply (H p' h' raw' T'); [now right | assumption].
Qed.

Lemma process_matches_covered h raws :
  (forall raw, In raw raws ->
     forall T T', buildMatch raw compilerScope T = buildMatch raw compilerScope T') ->
  forall R,
    (forall raw, In raw raws ->
       Compiler.declaredComponent (built raw) = None -> covered R h (built raw)) ->
    forall mg T, exists T', process_matches h raws (mg, T, R) = Normal (mg, T', R).
Proof.
  induction raws as [|raw raws IH]; intros Hind R H mg T; [now exists T |].
  cbn [Compiler.process_matches].
  destruct (process_match_covered h raw mg T R) as [T1 ->].
  { rewrite (Hind raw (or_introl eq_refl) T []). apply H. now left. }
  apply IH.
  - intros raw' Hin. apply Hind. now right.
  - intros raw' Hin. apply H. now right.
Qed.

Lemma process_macros_covered content table :
  (forall pattern h raw,
     In (pattern, h) table -> In raw (exec pattern content) ->
     forall T T', buildMatch raw compilerScope T = buildMatch raw compilerScope T') ->
  forall R,
    (forall pattern h raw,
       In (pattern, h) table -> In raw (exec pattern content) ->
       Compiler.declaredComponent (built raw) = None -> covered R h (built raw)) ->
    forall mg T, exists T', process_macros table content (mg, T, R) = Normal (mg, T', R).
Proof.
  induction table as [|[pattern h] table IH]; intros Hind R H mg T; [now exists T |].
  cbn [Compiler.process_macros].
  destruct (process_matches_covered h (exec pattern content)
              (fun raw Hin => Hind pattern h raw (or_introl eq_refl) Hin) R
              (fun raw Hin => H pattern h raw (or_introl eq_refl) Hin) mg T)
    as [T1 ->].
  apply IH.
  - intros p' h' raw' Hin Hm. apply (Hind p' h' raw'); [now right | assumption].
  - intros p' h' raw' Hin Hm. apply (H p' h' raw'); [now right | assumption].
Qed.

Hypothesis keeps_name : hook_keeps_name hooks.

Lemma process_matches_invariants h raws :
  (forall raw, In raw raws ->
     forall T T', buildMatch raw compilerScope T = buildMatch raw compilerScope T') ->
  forall mg T R mg' T' R',
    process_matches h raws (mg, T, R) = Normal (mg', T', R') ->
    all_dirty R -> no_duplicates R ->
    all_dirty R' /\ no_duplicates R'
    /\ (forall h0 m0, covered R h0 m0 -> covered R' h0 m0)
    /\ (forall raw, In raw raws ->
          Compiler.declaredComponent (built raw) = None -> covered R' h (built raw)).
Proof.
  induction raws as [|raw raws IH]; intros Hind mg T R mg' T' R' Hrun Hd Hn.
  - injection Hrun as <- <- <-. split; [assumption |]. split; [assumption |].
    split; [auto |]. intros raw [].
  - cbn [Compiler.process_matches] in Hrun.
    destruct (process_match h raw (mg, T, R)) as [[[mg1 T1] R1]|] eqn:E;
      [| discriminate].
    assert (Hind' : forall raw', In raw' raws ->
              forall T T', buildMatch raw' compilerScope T
                           = buildMatch raw' compilerScope T').
    { intros raw' Hin. apply Hind. now right. }
    apply process_match_inv in E.
    rewrite (Hind raw (or_introl eq_refl) T []) in E.
    destruct E as [(alias & chain & Hdecl & -> & -> & ->) | (Hdecl & -> & E)].
    + destruct (IH Hind' mg _ R mg' T' R' Hrun Hd Hn) as (Hd2 & Hn2 & Hst2 & Hc2).
      split; [assumption |]. split; [assumption |]. split; [assumption |].
      intros raw' [<- | Hin] Hnone; [congruence | now apply Hc2].
    + destruct (emit_properties_invariants hooks getMangledSelector compilerScope
                  keeps_name h _ mg R mg1 R1 E Hd Hn) as (Hd1 & Hn1 & Hst1 & Hc1).
      destruct (IH Hind' mg1 T R1 mg' T' R' Hrun Hd1 Hn1) as (Hd2 & Hn2 & Hst2 & Hc2).
      split; [assumption |]. split; [assumption |].
      split; [intros h0 m0 H; now apply Hst2, Hst1 |].
      intros raw' [<- | Hin] Hnone; [now apply Hst2 | now apply Hc2].
Qed.

Lemma process_macros_invariants content table :
  (forall pattern h raw,
     In (pattern, h) table -> In raw (exec pattern content) ->
     forall T T', buildMatch raw compilerScope T = buildMatch raw compilerScope T') ->
  forall mg T R mg' T' R',
    process_macros table content (mg, T, R) = Normal (mg', T', R') ->
    all_dirty R -> no_duplicates R ->
    all_dirty R' /\ no_duplicates R'
    /\ (forall h0 m0, covered R h0 m0 -> covered R' h0 m0)
    /\ (forall pattern h raw,
          In (pattern, h) table -> In raw (exec pattern content) ->
          Compiler.declaredComponent (built raw) = None -> covered R' h (built raw)).
Proof.
  induction table as [|[pattern h] table IH]; intros Hind mg T R mg' T' R' Hrun Hd Hn.
  - injection Hrun as <- <- <-. split; [assumption |]. split; [assumption |].
    split; [auto |]. intros p' h' raw' [].
  - cbn [Compiler.process_macros] in Hrun.
    destruct (process_matches h (exec pattern content) (mg, T, R))
      as [[[mg1 T1] R1]|] eqn:E; [| discriminate].
    destruct (process_matches_invariants h (exec pattern content)
                (fun raw Hin => Hind pattern h raw (or_introl eq_refl) Hin)
                mg T R mg1 T1 R1 E Hd Hn)
      as (Hd1 & Hn1 & Hst1 & Hc1).
    destruct (IH (fun p' h' raw' Hin Hm => Hind p' h' raw' (or_intror Hin) Hm)
                 mg1 T1 R1 mg' T' R' Hrun Hd1 Hn1) as (Hd2 & Hn2 & Hst2 & Hc2).
    split; [assumption |]. split; [assumption |].
    split; [intros h0 m0 H; now apply Hst2, Hst1 |].
    intros p' h' raw' [E' | Hin] Hm Hnone.
    + injection E' as <- <-. now apply Hst2, Hc1.
    + now apply (Hc2 p' h' raw').
Qed.
End CompileTwice.


(** ** The single-letter macro scenario *)

Lemma no_hooks_keeps_name : hook_keeps_name no_hooks.
Proof.
  intros e (p & v & Hin). simpl in Hin. destruct Hin as [<- | []].
  unfold obj_has_own. simpl. now rewrite String.eqb_refl.
Qed.



(** C5 (as the code behaves): compiling "m:10px" with the macro [m:(\S+)]
    whose handler adds [margin] with the capture gives exactly one record,
    under the escaped selector, with the one property margin = 10px; and
    [generateCss] without minimizing and mangling returns the text with a
    space after the colon of the declaration. *)
Theorem single_letter_macro_scenario :
  exists mg r,
    compile_single_letter "m:10px" None 0
    = Normal (mg, [(("m\:10px", None, None), r)])
    /\ escape_selector "m:10px" = "m\:10px"
    /\ selector r = Some "m\:10px"
    /\ properties r = [("margin", "10px")]
    /\ fst (generateCss no_hooks (mkCompileConfig false false) r)
       = Some scenario_text.
Proof.
  eexists _, _. split; [reflexivity |]. repeat split.
Qed.

(** The text of the specification, without the space, is not what the
    scenario renders. *)
Lemma single_letter_macro_spec_text_refuted :
  ~ (exists mg k r,
       compile_single_letter "m:10px" None 0 = Normal (mg, [(k, r)])
       /\ fst (generateCss no_hooks (mkCompileConfig false false) r)
          = Some scenario_text_of_spec).
Proof.
  intros (mg & k & r & Hrun & Htext).
  vm_compute in Hrun. injection Hrun as _ _ <-.
  vm_compute in Htext. discriminate.
Qed.

(** The legacy [compile] is the one that writes no space. *)
Lemma legacy_compile_scenario_text :
  Legacy.compile false
    (Legacy.new_CssRecord (Legacy.OneSelector "m:10px") [("margin", "10px")] [])
  = scenario_text_of_spec.
Proof. reflexivity. Qed.

(** ** What does hold of the pseudo-class suffixes *)

Lemma append_assoc (a b c : string) : (a +++ b) +++ c = a +++ (b +++ c).
Proof. induction a as [|x a IH]; simpl; [reflexivity | now rewrite IH]. Qed.

(** With at least one pseudo-class every generated selector ends with the
    suffix of one of them, and the class selector appears under each. *)
Lemma selector_variants_suffixed config r :
  pseudoClasses r <> [] ->
  (forall s, In s (selector_variants config r) ->
     exists base pc, In pc (pseudoClasses r) /\ s = base +++ ":" +++ pc)
  /\ (forall pc, In pc (pseudoClasses r) ->
        In (template_scope (scope r) +++ "."
            +++ template (if mangleSelectors config then mangledSelector r
                          else selector r)
            +++ ":" +++ pc)
           (selector_variants config r)).
Proof.
  intros Hne. unfold selector_variants.
  set (sel := template (if mangleSelectors config then mangledSelector r else selector r)).
  set (comps := componentsSelectors_of (components r)).
  set (sc := template_scope (scope r)).
  destruct (pseudoClasses r) as [|p0 pcs0] eqn:Epcs; [contradiction |].
  rewrite <- Epcs. clear Hne.
  assert (Hlast : exists pcs pc, pseudoClasses r = pcs ++ [pc]).
  { rewrite Epcs. destruct (exists_last (l := p0 :: pcs0)) as (l & a & E);
      [discriminate |]. now exists l, a. }
  destruct Hlast as (pcs & pc & Elast).
  replace (custom_and_class (customSelectors r) sel comps (pseudoClasses r))
    with (fold_left (pseudo_step (customSelectors r) sel comps) (pcs ++ [pc]) ([], []))
    by (rewrite Elast; destruct pcs; reflexivity).
  rewrite pseudo_loop. cbn [snd]. rewrite app_nil_l. rewrite <- Elast.
  split.
  - intros s Hs. apply in_app_or in Hs. destruct Hs as [Hs | Hs].
    + apply in_map_iff in Hs. destruct Hs as (x & <- & Hx).
      apply in_map_iff in Hx. destruct Hx as (c & <- & Hc).
      exists (sc +++ c), pc. split.
      * rewrite Elast. apply in_or_app. right. now left.
      * unfold add_suffix. now rewrite append_assoc.
    + apply in_map_iff in Hs. destruct Hs as (x & <- & Hx).
      apply in_flat_map in Hx. destruct Hx as (p & Hp & Hx).
      destruct Hx as [<- | Hx].
      * exists (sc +++ "." +++ sel), p. split; [assumption |].
        now rewrite !append_assoc.
      * apply in_map_iff in Hx. destruct Hx as (c & <- & Hc).
        exists (sc +++ "." +++ c), p. split; [assumption |].
        unfold add_suffix. now rewrite !append_assoc.
  - intros p Hp. apply in_or_app. right.
    apply in_map_iff. exists (sel +++ ":" +++ p). split; [reflexivity |].
    apply in_flat_map. exists p. split; [assumption | now left].
Qed.

(** ** The compile step returns *)

(** When no handler indexes a capture its match lacks, [compile] returns. *)
Lemma compile_returns :
  forall (hooks : HookRegistry) (Mangler : Type)
         (getMangledSelector : option string -> Mangler -> string * Mangler)
         (Pattern : Type) (exec : Pattern -> string -> list Compiler.RegExpMatch)
         (buildMatch : Compiler.RegExpMatch -> option string
                       -> Compiler.ComponentTable -> Compiler.MacroMatch)
         (preprocess : string -> string)
         (componentDefinitions : string -> list (string * list string))
         (macros : list (Pattern * Compiler.Handler))
         (compilerScope : option string)
         (content : string) (existing : option Compiler.CompilationResult)
         (cs : Mangler * Compiler.ComponentTable),
    (forall pattern h raw T,
       In (pattern, h) macros -> In raw (exec pattern (preprocess content)) ->
       Compiler.declaredComponent (buildMatch raw compilerScope T) <> None
       \/ h (buildMatch raw compilerScope T) <> None) ->
    exists st,
      Compiler.compile hooks getMangledSelector exec buildMatch preprocess
        componentDefinitions macros compilerScope content existing cs = Normal st.
Proof.
  intros. unfold Compiler.compile. now apply process_macros_returns.
Qed.

(** * Further properties of the code *)

(** ** Escaping and unescaping *)

Lemma ident_not_backslash c : is_ident_char c = true -> Ascii.eqb c backslash = false.
Proof.
  intros H. apply Ascii.eqb_neq. intros ->. discriminate.
Qed.

Lemma unescape_plain c rest :
  Ascii.eqb c backslash = false ->
  unescape_selector (String c rest) = String c (unescape_selector rest).
Proof. intros H. destruct rest; simpl; [reflexivity | now rewrite H]. Qed.

Lemma unescape_escaped d rest :
  is_ident_char d = false ->
  unescape_selector (String backslash (String d rest)) = String d (unescape_selector rest).
Proof. intros H. simpl. now rewrite H. Qed.

Lemma unescape_escape s : unescape_selector (escape_selector s) = s.
Proof.
  induction s as [|c s IH]; [reflexivity |].
  cbn [escape_selector]. destruct (is_ident_char c) eqn:E.
  - rewrite unescape_plain by now apply ident_not_backslash. now rewrite IH.
  - rewrite unescape_escaped by assumption. now rewrite IH.
Qed.

Lemma escape_selector_injective s1 s2 :
  escape_selector s1 = escape_selector s2 -> s1 = s2.
Proof.
  intros E. rewrite <- (unescape_escape s1), <- (unescape_escape s2). now rewrite E.
Qed.

(** X1: the unescaping of legacy [serialize] undoes the escaping that
    [addSelector], [configure] and [addComponent] apply, so the escaping
    never maps two texts to one. *)
Theorem unescape_escape_selector :
  (forall s, unescape_selector (escape_selector s) = s)
  /\ (forall s1 s2, escape_selector s1 = escape_selector s2 -> s1 = s2).
Proof.
  split; [apply unescape_escape | apply escape_selector_injective].
Qed.

(** ** The legacy selectors list *)

Lemma indexOf_includes x l :
  includes x l = true ->
  exists i, indexOf x l = Some i /\ nth_error l i = Some x.
Proof.
  induction l as [|y l IH]; simpl; [discriminate |].
  destruct (String.eqb x y) eqn:E.
  - apply String.eqb_eq in E. subst y. intros _. now exists 0.
  - simpl. intros H. destruct (IH H) as (i & -> & Hn). now exists (S i).
Qed.

Lemma legacy_getSelector_has q r :
  Legacy.hasSelector q r = true -> Legacy.getSelector q r = Some q.
Proof.
  intros H. unfold Legacy.getSelector. rewrite H.
  destruct (indexOf_includes q (Legacy.selectors r) H) as (i & -> & Hn). exact Hn.
Qed.

Lemma legacy_addSelector_selectors sel pc r :
  Legacy.selectors (Legacy.addSelector sel pc r)
  = if includes (stored_selector sel pc) (Legacy.selectors r)
    then Legacy.selectors r
    else Legacy.selectors r ++ [stored_selector sel pc].
Proof.
  unfold Legacy.addSelector, Legacy.hasSelector, stored_selector.
  destruct pc as [pc|]; [destruct (String.eqb pc EmptyString) |];
    match goal with |- context [includes ?x ?l] => destruct (includes x l) end;
    reflexivity.
Qed.

Lemma legacy_addSelector_frame sel pc r :
  Legacy.properties (Legacy.addSelector sel pc r) = Legacy.properties r
  /\ Legacy.pseudoClasses (Legacy.addSelector sel pc r) = Legacy.pseudoClasses r.
Proof.
  unfold Legacy.addSelector.
  match goal with |- context [if ?b then _ else _] => destruct b end; split; reflexivity.
Qed.

Lemma legacy_addSelector_NoDup sel pc r :
  NoDup (Legacy.selectors r) -> NoDup (Legacy.selectors (Legacy.addSelector sel pc r)).
Proof.
  intros Hnd. rewrite legacy_addSelector_selectors.
  destruct (includes (stored_selector sel pc) (Legacy.selectors r)) eqn:E;
    [assumption |].
  apply NoDup_app; [assumption | repeat constructor; simpl; tauto |].
  intros x Hx [<- | []]. apply includes_true_iff in Hx. congruence.
Qed.

(** X3: [addSelector] keeps the selectors list free of duplicates, is
    idempotent, keeps what was there, and afterwards [hasSelector] and
    [getSelector] find the escaped text it stored; the raw text, when
    escaping changes it, is found only if it was stored before. *)
Theorem legacy_addSelector_keeps_list_distinct :
  forall (sel : string) (pc : option string) (r : Legacy.CssRecord),
    NoDup (Legacy.selectors r) ->
    let r' := Legacy.addSelector sel pc r in
    NoDup (Legacy.selectors r')
    /\ Legacy.addSelector sel pc r' = r'
    /\ Legacy.hasSelector (stored_selector sel pc) r' = true
    /\ Legacy.getSelector (stored_selector sel pc) r' = Some (stored_selector sel pc)
    /\ (forall q, Legacy.hasSelector q r = true -> Legacy.hasSelector q r' = true)
    /\ (forall q, q <> stored_selector sel pc ->
          Legacy.hasSelector q r' = Legacy.hasSelector q r).
Proof.
  intros sel pc r Hnd r'.
  assert (Hsel := legacy_addSelector_selectors sel pc r). fold r' in Hsel.
  assert (Hhas : Legacy.hasSelector (stored_selector sel pc) r' = true).
  { unfold Legacy.hasSelector. rewrite Hsel.
    destruct (includes (stored_selector sel pc) (Legacy.selectors r)) eqn:E;
      [assumption | apply includes_last]. }
  split; [now apply legacy_addSelector_NoDup |].
  split.
  { assert (E : Legacy.selectors (Legacy.addSelector sel pc r') = Legacy.selectors r').
    { rewrite legacy_addSelector_selectors. unfold Legacy.hasSelector in Hhas.
      now rewrite Hhas. }
    destruct (legacy_addSelector_frame sel pc r') as [Ep Es].
    destruct (Legacy.addSelector sel pc r'), r'. simpl in *. congruence. }
  split; [exact Hhas |].
  split; [now apply legacy_getSelector_has |].
  split.
  - intros q Hq. unfold Legacy.hasSelector in *. rewrite Hsel.
    destruct (includes (stored_selector sel pc) (Legacy.selectors r));
      [assumption |]. rewrite includes_app, Hq. reflexivity.
  - intros q Hq. unfold Legacy.hasSelector. rewrite Hsel.
    destruct (includes (stored_selector sel pc) (Legacy.selectors r));
      [reflexivity |].
    rewrite includes_app. simpl. apply String.eqb_neq in Hq. rewrite Hq.
    now rewrite !orb_false_r.
Qed.

Lemma legacy_addSelector_keeps_list_distinct_witness :
  let r := Legacy.addSelector "m:10px" (Some "hover") Legacy.fresh in
  Legacy.selectors r = ["m\:10px:hover"]
  /\ Legacy.getSelector "m\:10px:hover" r = Some "m\:10px:hover"
  /\ Legacy.hasSelector "m:10px" r = false.
Proof.
  intros r.
  destruct (legacy_addSelector_keeps_list_distinct "m:10px" (Some "hover")
              Legacy.fresh (NoDup_nil _)) as (_ & _ & _ & Hget & _ & Hraw).
  subst r. split; [reflexivity |]. split; [exact Hget |].
  rewrite (Hraw "m:10px"); [reflexivity | discriminate].
Defined.

(** ** Legacy [hydrate] *)

Lemma legacy_fold_addSelector_prefix names r :
  exists extra,
    Legacy.selectors (fold_left (fun r s => Legacy.addSelector s None r) names r)
    = Legacy.selectors r ++ extra.
Proof.
  revert r. induction names as [|n names IH]; intros r; simpl.
  - exists []. now rewrite app_nil_r.
  - destruct (IH (Legacy.addSelector n None r)) as (extra & ->).
    rewrite legacy_addSelector_selectors.
    destruct (includes (stored_selector n None) (Legacy.selectors r)).
    + now exists extra.
    + exists (stored_selector n None :: extra). now rewrite <- app_assoc.
Qed.

Lemma legacy_fold_addSelector_frame names r :
  Legacy.properties (fold_left (fun r s => Legacy.addSelector s None r) names r)
  = Legacy.properties r
  /\ Legacy.pseudoClasses (fold_left (fun r s => Legacy.addSelector s None r) names r)
     = Legacy.pseudoClasses r.
Proof.
  revert r. induction names as [|n names IH]; intros r; simpl; [now split |].
  destruct (IH (Legacy.addSelector n None r)) as [-> ->].
  apply legacy_addSelector_frame.
Qed.

(** What the constructor stores is escaped text, each once. *)
Lemma legacy_fold_addSelector_escaped names r :
  NoDup (Legacy.selectors r) ->
  Forall (fun x => exists n, x = escape_selector n) (Legacy.selectors r) ->
  NoDup (Legacy.selectors (fold_left (fun r s => Legacy.addSelector s None r) names r))
  /\ Forall (fun x => exists n, x = escape_selector n)
       (Legacy.selectors (fold_left (fun r s => Legacy.addSelector s None r) names r)).
Proof.
  revert r. induction names as [|n names IH]; intros r Hnd Hesc; simpl; [now split |].
  apply IH.
  - apply (legacy_addSelector_NoDup n None r Hnd).
  - rewrite legacy_addSelector_selectors.
    destruct (includes (stored_selector n None) (Legacy.selectors r)); [assumption |].
    apply Forall_app. split; [assumption |]. constructor; [| constructor].
    now exists n.
Qed.

(** Adding the unescaped texts of an escaped, duplicate-free list again
    rebuilds the list. *)
Lemma legacy_readd_unescaped L r :
  NoDup L -> Forall (fun x => exists n, x = escape_selector n) L ->
  (forall x, In x L -> ~ In x (Legacy.selectors r)) ->
  Legacy.selectors
    (fold_left (fun r s => Legacy.addSelector s None r) (map unescape_selector L) r)
  = Legacy.selectors r ++ L.
Proof.
  revert r. induction L as [|x L IH]; intros r Hnd Hesc Hnew; simpl.
  - now rewrite app_nil_r.
  - inversion Hnd as [|? ? Hx HndL]; subst.
    inversion Hesc as [|? ? [n ->] HescL]; subst.
    rewrite unescape_escape.
    assert (Hsel : Legacy.selectors (Legacy.addSelector n None r)
                   = Legacy.selectors r ++ [escape_selector n]).
    { rewrite legacy_addSelector_selectors. simpl.
      destruct (includes (escape_selector n) (Legacy.selectors r)) eqn:E;
        [| reflexivity].
      apply includes_true_iff in E. exfalso. apply (Hnew (escape_selector n));
        [now left | assumption]. }
    rewrite IH; [| assumption | assumption |].
    + rewrite Hsel, <- app_assoc. reflexivity.
    + intros y Hy Hin. rewrite Hsel in Hin. apply in_app_or in Hin.
      destruct Hin as [Hin | [<- | []]].
      * apply (Hnew y); [now right | assumption].
      * contradiction.
Qed.

Lemma legacy_addProperty_frame p v r :
  Legacy.selectors (Legacy.addProperty p v r) = Legacy.selectors r
  /\ Legacy.pseudoClasses (Legacy.addProperty p v r) = Legacy.pseudoClasses r.
Proof.
  unfold Legacy.addProperty. destruct (Legacy.hasProperty p r); split; reflexivity.
Qed.

Lemma legacy_fold_addProperty_frame es r :
  Legacy.selectors (fold_left (fun r e => Legacy.addProperty (fst e) (snd e) r) es r)
  = Legacy.selectors r
  /\ Legacy.pseudoClasses
       (fold_left (fun r e => Legacy.addProperty (fst e) (snd e) r) es r)
     = Legacy.pseudoClasses r.
Proof.
  revert r. induction es as [|e es IH]; intros r; simpl; [now split |].
  destruct (IH (Legacy.addProperty (fst e) (snd e) r)) as [-> ->].
  apply legacy_addProperty_frame.
Qed.

(** Reading a name after a run of [addProperty]: what was stored stays, an
    inherited name is never stored, a new name takes the value given. *)
Lemma legacy_fold_addProperty_get (es : Obj string) r k :
  obj_wf es ->
  obj_get k
    (Legacy.properties (fold_left (fun r e => Legacy.addProperty (fst e) (snd e) r) es r))
  = match obj_get k (Legacy.properties r) with
    | Some v => Some v
    | None => if includes k Object_prototype_keys then None else obj_get k es
    end.
Proof.
  unfold obj_wf. revert r.
  induction es as [|[p v] es IH]; intros r Hwf; cbn [fold_left obj_get fst snd].
  - destruct (obj_get k (Legacy.properties r)); [reflexivity |].
    now destruct (includes k Object_prototype_keys).
  - cbn [map fst] in Hwf. inversion Hwf as [|? ? Hnotin Hwf']; subst.
    rewrite (IH _ Hwf'). clear IH.
    unfold Legacy.addProperty, Legacy.hasProperty, obj_has_own.
    destruct (String.eqb k p) eqn:E.
    + apply String.eqb_eq in E. subst k.
      destruct (obj_get p (Legacy.properties r)) as [v0|] eqn:G; cbn [orb].
      * now rewrite G.
      * destruct (includes p Object_prototype_keys) eqn:I;
          cbn [Legacy.properties].
        -- now rewrite G.
        -- now rewrite obj_get_set_same.
    + apply String.eqb_neq in E.
      destruct (match obj_get p (Legacy.properties r) with
                | Some _ => true | None => false end
                || includes p Object_prototype_keys);
        cbn [Legacy.properties]; [reflexivity |].
      now rewrite obj_get_set_other.
Qed.

(** X2: for every record the legacy constructor builds, [serialize] followed
    by [hydrate] into a fresh record restores exactly the selectors list,
    whether [hydrate] then returns or throws. *)
Theorem legacy_roundtrip_restores_selectors :
  forall (sel : Legacy.SelectorArg) (props : Obj string) (pcs : list string),
    let R := Legacy.new_CssRecord sel props pcs in
    Legacy.selectors (final_state (Legacy.hydrate (Legacy.serialize R) Legacy.fresh))
    = Legacy.selectors R.
Proof.
  intros sel props pcs R.
  assert (HR : NoDup (Legacy.selectors R)
               /\ Forall (fun x => exists n, x = escape_selector n) (Legacy.selectors R)).
  { subst R. unfold Legacy.new_CssRecord. cbn [Legacy.selectors].
    apply legacy_fold_addSelector_escaped; simpl; constructor. }
  destruct HR as [Hnd Hesc].
  assert (Hsel : Legacy.selectors
                   (fold_left (fun r s => Legacy.addSelector s None r)
                      (map unescape_selector (Legacy.selectors R)) Legacy.fresh)
                 = Legacy.selectors R).
  { rewrite legacy_readd_unescaped; try assumption; [reflexivity |].
    intros x _ []. }
  unfold Legacy.hydrate, Legacy.serialize. cbn [Legacy.snap_selectors
    Legacy.snap_pseudoClasses Legacy.snap_properties].
  destruct (Legacy.properties_length_truthy R); cbn [final_state]; [| exact Hsel].
  destruct (legacy_fold_addProperty_frame (obj_entries (Legacy.properties R))
    (match Legacy.pseudoClasses R with
     | [] => fold_left (fun r s => Legacy.addSelector s None r)
               (map unescape_selector (Legacy.selectors R)) Legacy.fresh
     | _ :: _ =>
         Legacy.mkCssRecord
           (Legacy.selectors
              (fold_left (fun r s => Legacy.addSelector s None r)
                 (map unescape_selector (Legacy.selectors R)) Legacy.fresh))
           (Legacy.properties
              (fold_left (fun r s => Legacy.addSelector s None r)
                 (map unescape_selector (Legacy.selectors R)) Legacy.fresh))
           (Legacy.pseudoClasses
              (fold_left (fun r s => Legacy.addSelector s None r)
                 (map unescape_selector (Legacy.selectors R)) Legacy.fresh)
            ++ filter
                 (fun pc =>
                    negb (includes pc
                            (Legacy.pseudoClasses
                               (fold_left (fun r s => Legacy.addSelector s None r)
                                  (map unescape_selector (Legacy.selectors R))
                                  Legacy.fresh))))
                 (Legacy.pseudoClasses R))
     end)) as [E _].
  rewrite E. destruct (Legacy.pseudoClasses R); exact Hsel.
Qed.

(** X4: when legacy [hydrate] returns (the snapshot carries its
    pseudo-classes), it only adds: the selectors and pseudo-classes the
    record had stay in front, a property the record had keeps its value, a
    name inherited from [Object.prototype] is never stored, and every other
    name of the snapshot arrives with the snapshot's value. *)
Theorem legacy_hydrate_merges :
  forall (data : Legacy.Snapshot) (r r' : Legacy.CssRecord),
    obj_wf (Legacy.snap_properties data) ->
    Legacy.hydrate data r = Normal r' ->
    (exists extra, Legacy.selectors r' = Legacy.selectors r ++ extra)
    /\ (exists extra, Legacy.pseudoClasses r' = Legacy.pseudoClasses r ++ extra)
    /\ (forall k,
          obj_get k (Legacy.properties r')
          = match obj_get k (Legacy.properties r) with
            | Some v => Some v
            | None =>
                if includes k Object_prototype_keys then None
                else obj_get k (Legacy.snap_properties data)
            end).
Proof.
  intros data r r' Hwf Hrun. unfold Legacy.hydrate in Hrun.
  destruct (Legacy.snap_pseudoClasses data) as [pcs|]; [| discriminate].
  injection Hrun as <-.
  set (r1 := fold_left (fun r s => Legacy.addSelector s None r)
               (Legacy.snap_selectors data) r).
  destruct (legacy_fold_addSelector_prefix (Legacy.snap_selectors data) r)
    as (extra & Hsel). fold r1 in Hsel.
  destruct (legacy_fold_addSelector_frame (Legacy.snap_selectors data) r)
    as [Hprops Hpcs]. fold r1 in Hprops, Hpcs.
  set (r2 := match pcs with
             | [] => r1
             | _ :: _ =>
                 Legacy.mkCssRecord (Legacy.selectors r1) (Legacy.properties r1)
                   (Legacy.pseudoClasses r1
                    ++ filter (fun pc => negb (includes pc (Legacy.pseudoClasses r1))) pcs)
             end).
  assert (H2 : Legacy.selectors r2 = Legacy.selectors r1
               /\ Legacy.properties r2 = Legacy.properties r1
               /\ exists extra', Legacy.pseudoClasses r2 = Legacy.pseudoClasses r1 ++ extra').
  { subst r2. destruct pcs; simpl; repeat split; eauto.
    exists []. now rewrite app_nil_r. }
  destruct H2 as (Hs2 & Hp2 & extra' & Hc2).
  destruct (legacy_fold_addProperty_frame
              (obj_entries (Legacy.snap_properties data)) r2) as [Hs3 Hc3].
  split; [exists extra; now rewrite Hs3, Hs2 |].
  split; [exists extra'; now rewrite Hc3, Hc2, Hpcs |].
  intros k.
  rewrite legacy_fold_addProperty_get by now apply obj_entries_wf.
  rewrite Hp2, Hprops. now rewrite obj_get_entries.
Qed.

Lemma legacy_hydrate_merges_witness :
  let data := Legacy.mkSnapshot ["m:10px"]
                [("margin", "20px"); ("color", "red"); ("toString", "x")] (Some ["hover"]) in
  let r := Legacy.new_CssRecord (Legacy.OneSelector "a") [("margin", "10px")] ["focus"] in
  exists r',
    Legacy.hydrate data r = Normal r'
    /\ Legacy.selectors r' = ["a"; "m\:10px"]
    /\ obj_get "margin" (Legacy.properties r') = Some "10px"
    /\ obj_get "color" (Legacy.properties r') = Some "red"
    /\ obj_get "toString" (Legacy.properties r') = None.
Proof.
  intros data r. eexists. split; [reflexivity |].
  assert (Hwf : obj_wf (Legacy.snap_properties data)).
  { unfold obj_wf. simpl. repeat constructor; simpl; intuition discriminate. }
  destruct (legacy_hydrate_merges data r _ Hwf eq_refl) as (_ & _ & Hget).
  split; [reflexivity |].
  rewrite !Hget. repeat split.
Defined.

(** ** Invariants of the current class *)

Lemma map_values_keys {V W : Type} (f : V -> W) (o : Obj V) :
  map fst (map_values f o) = map fst o.
Proof. unfold map_values. rewrite map_map. reflexivity. Qed.

Lemma record_wf_set_changed b r : record_wf r -> record_wf (set_changed b r).
Proof. intros H. exact H. Qed.

Lemma record_wf_addProperty hooks p v r :
  record_wf r -> record_wf (addProperty hooks p v r).
Proof.
  intros (Hp & Hc & Hs & Hk).
  destruct (addProperty_frame hooks p v r)
    as (_ & _ & _ & _ & _ & _ & Ek & Ec & Es). simpl in *.
  repeat split; [now apply addProperty_wf | now rewrite Ec | now rewrite Es
                | now rewrite Ek].
Qed.

Lemma record_wf_addPseudoClass r pc : record_wf r -> record_wf (addPseudoClass r pc).
Proof.
  intros (Hp & Hc & Hs & Hk). unfold addPseudoClass.
  destruct (includes pc (pseudoClasses r)) eqn:E; [repeat split; assumption |].
  repeat split; simpl; try assumption.
  apply NoDup_app; [assumption | repeat constructor; simpl; tauto |].
  intros x Hx [<- | []]. apply includes_true_iff in Hx. congruence.
Qed.

Lemma record_wf_addCustomSelector sel r :
  record_wf r -> record_wf (addCustomSelector sel r).
Proof.
  intros (Hp & Hc & Hs & Hk). unfold addCustomSelector.
  destruct (includes sel (customSelectors r)) eqn:E; [repeat split; assumption |].
  repeat split; simpl; try assumption.
  apply NoDup_app; [assumption | repeat constructor; simpl; tauto |].
  intros x Hx [<- | []]. apply includes_true_iff in Hx. congruence.
Qed.

Lemma record_wf_addComponent sel chain r :
  record_wf r -> record_wf (addComponent sel chain r).
Proof.
  intros (Hp & Hc & Hs & Hk). unfold addComponent.
  destruct (js_in (escape_selector sel) (components r)); [repeat split; assumption |].
  repeat split; simpl; try assumption. now apply obj_set_wf.
Qed.

Lemma record_wf_refresh_cache config r :
  record_wf r -> record_wf (refresh_cache config r).
Proof.
  intros (Hp & Hc & Hs & Hk). unfold refresh_cache.
  destruct (changed r || cache_missing (cache r)); [| repeat split; assumption].
  unfold regenerate. repeat split; simpl; try assumption.
  unfold obj_wf, popped_components. now rewrite map_values_keys.
Qed.

Lemma record_wf_configure hooks (Mangler : Type)
    (getMangledSelector : option string -> Mangler -> string * Mangler) config mg r :
  record_wf r ->
  record_wf (snd (final_state (configure hooks getMangledSelector config (mg, r)))).
Proof.
  intros Hwf.
  destruct (Nat.eq_dec (config_keys config) 0) as [Hk | Hk].
  - now rewrite (configure_empty hooks getMangledSelector config mg r Hk).
  - destruct (cfg_selector config) as [s|] eqn:Hs.
    + rewrite (configure_with_selector hooks getMangledSelector config mg r s Hs).
      cbn [final_state snd]. unfold configured.
      apply record_wf_set_changed.
      apply addPseudoClasses_ind; [| intros; now apply record_wf_addPseudoClass].
      apply addProperties_ind;
        [| intros; now apply record_wf_addProperty, record_wf_set_changed].
      apply addComponents_ind; [| intros; now apply record_wf_addComponent].
      exact Hwf.
    + rewrite (configure_missing_selector hooks getMangledSelector config mg r Hk Hs).
      exact Hwf.
Qed.

(** X5: a record whose properties, components, pseudo-classes and custom
    selectors hold nothing twice stays so under every method of the class,
    [configure] included whether it returns or throws; the record of a fresh
    instance is such a record. *)
Theorem mutators_keep_record_wf :
  forall (hooks : HookRegistry) (r : CssRecord),
    record_wf r ->
    (forall p v, record_wf (addProperty hooks p v r))
    /\ (forall props, record_wf (addProperties hooks props r))
    /\ (forall arg, record_wf (addPseudoClasses arg r))
    /\ (forall sel, record_wf (addCustomSelector sel r))
    /\ (forall sel chain, record_wf (addComponent sel chain r))
    /\ (forall comps, record_wf (addComponents comps r))
    /\ (forall (Mangler : Type)
               (getMangledSelector : option string -> Mangler -> string * Mangler)
               config mg,
          record_wf
            (snd (final_state (configure hooks getMangledSelector config (mg, r)))))
    /\ (forall config, record_wf (refresh_cache config r)).
Proof.
  intros hooks r Hwf.
  split; [intros; now apply record_wf_addProperty |].
  split.
  { intros props. apply addProperties_ind; [assumption |].
    intros; now apply record_wf_addProperty, record_wf_set_changed. }
  split.
  { intros arg. apply addPseudoClasses_ind; [assumption |].
    intros; now apply record_wf_addPseudoClass. }
  split; [intros; now apply record_wf_addCustomSelector |].
  split; [intros; now apply record_wf_addComponent |].
  split.
  { intros comps. apply addComponents_ind; [assumption |].
    intros; now apply record_wf_addComponent. }
  split; [intros; now apply record_wf_configure |].
  intros; now apply record_wf_refresh_cache.
Qed.

Lemma initial_record_wf : record_wf initial_record.
Proof. repeat split; constructor. Qed.

Lemma mutators_keep_record_wf_witness :
  record_wf
    (snd (final_state
            (configure no_hooks counting_mangler
               (mkConfig None (Some "m:10px") (Some [("margin", "10px")]) None None
                  (Some ["hover"; "hover"]) None None)
               (0, initial_record))))
  /\ record_wf (addCustomSelector "a" (addCustomSelector "a" initial_record)).
Proof.
  destruct (mutators_keep_record_wf no_hooks initial_record initial_record_wf)
    as (_ & _ & _ & Hcs & _ & _ & Hcfg & _).
  split; [apply Hcfg |].
  destruct (mutators_keep_record_wf no_hooks (addCustomSelector "a" initial_record)
              (Hcs "a")) as (_ & _ & _ & Hcs' & _).
  apply Hcs'.
Defined.

(** ** Components *)

(** X6: components are stored under the escaped name, first write wins:
    adding a name again changes nothing, a new name is read back under its
    escaped text with the chain given, and adding one name never touches
    the entry of another. *)
Theorem addComponent_first_write_wins :
  forall (sel : string) (c1 c2 : list string) (r : CssRecord),
    addComponent sel c2 (addComponent sel c1 r) = addComponent sel c1 r
    /\ (js_in (escape_selector sel) (components r) = false ->
        obj_get (escape_selector sel) (components (addComponent sel c1 r)) = Some c1)
    /\ (forall other,
          other <> sel ->
          obj_get (escape_selector other) (components (addComponent sel c1 r))
          = obj_get (escape_selector other) (components r)).
Proof.
  intros sel c1 c2 r. split.
  { unfold addComponent at 1. now rewrite addComponent_added. }
  split.
  - intros H. unfold addComponent. rewrite H. simpl. apply obj_get_set_same.
  - intros other Hne. unfold addComponent.
    destruct (js_in (escape_selector sel) (components r)); [reflexivity |].
    simpl. apply obj_get_set_other. intros E. apply Hne.
    now apply escape_selector_injective.
Qed.

Lemma addComponent_first_write_wins_witness :
  components (addComponent "btn:lg" ["b"] (addComponent "btn:lg" ["a"] initial_record))
  = [("btn\:lg", ["a"])].
Proof.
  destruct (addComponent_first_write_wins "btn:lg" ["a"] ["b"] initial_record)
    as (H & _).
  rewrite H. reflexivity.
Defined.

(** ** What [configure] overwrites and what it ignores *)

(** X7: on a configuration with a selector, [configure] never reads
    [config.customSelectors] and leaves the custom selectors and the cache
    as they were; it overwrites the scope and the screen also when the
    configuration has none (they become null), keeps [shouldBeGenerated]
    when the configuration has none, stores what the mangler returned for
    the raw selector, and sets [changed]. *)
Theorem configure_overwrites_and_ignores :
  forall (hooks : HookRegistry) (Mangler : Type)
         (getMangledSelector : option string -> Mangler -> string * Mangler)
         (config : CssRecordConfigInterface) (mg : Mangler) (r : CssRecord)
         (s : string),
    cfg_selector config = Some s ->
    let r' := snd (final_state (configure hooks getMangledSelector config (mg, r))) in
    customSelectors r' = customSelectors r
    /\ cache r' = cache r
    /\ changed r' = true
    /\ scope r' = scope_or_null (cfg_scope config)
    /\ screenId r' = cfg_screenId config
    /\ shouldBeGenerated r'
       = or_default (cfg_shouldBeGenerated config) (shouldBeGenerated r)
    /\ mangledSelector r' = Some (fst (getMangledSelector (Some s) mg)).
Proof.
  intros hooks Mangler gms config mg r s Hs r'. subst r'.
  rewrite (configure_with_selector hooks gms config mg r s Hs).
  cbn [final_state snd]. unfold configured.
  match goal with |- context [addPseudoClasses ?a ?x] =>
    destruct (addPseudoClasses_frame a x)
      as (Ec1 & Eg1 & _ & Em1 & Ei1 & Es1 & Ek1 & _) end.
  match goal with |- context [addProperties hooks ?a ?x] =>
    destruct (addProperties_frame hooks a x)
      as (Ec2 & Eg2 & _ & Em2 & Ei2 & Es2 & Ek2 & _) end.
  match goal with |- context [addComponents ?a ?x] =>
    destruct (addComponents_frame a x)
      as (Ec3 & Eg3 & _ & Em3 & Ei3 & Es3 & Ek3 & _) end.
  simpl in *.
  repeat split; congruence.
Qed.

Lemma configure_overwrites_and_ignores_witness :
  let r := mkCssRecord false (Some "old") true (Some "x") (Some "z") (Some 2%Z)
             (Some "#app ") ["article"] [] [] [] in
  let r' := snd (final_state
                   (configure no_hooks counting_mangler
                      (mkConfig None (Some "m:10px") None (Some ["section"]) None None
                         None None)
                      (0, r))) in
  customSelectors r' = ["article"] /\ scope r' = None /\ screenId r' = None
  /\ shouldBeGenerated r' = true /\ cache r' = Some "old" /\ changed r' = true.
Proof.
  intros r r'.
  destruct (configure_overwrites_and_ignores no_hooks nat counting_mangler
              (mkConfig None (Some "m:10px") None (Some ["section"]) None None
                 None None) 0 r "m:10px" eq_refl)
    as (H1 & H2 & H3 & H4 & H5 & H6 & _).
  fold r' in H1, H2, H3, H4, H5, H6.
  rewrite H1, H2, H3, H4, H5, H6. repeat split.
Defined.

(** ** Reading properties after [addProperties] *)

Lemma obj_spread_singleton {V : Type} (a : Obj V) p (v : V) :
  obj_spread a [(p, v)] = obj_set p v a.
Proof.
  unfold obj_spread, obj_entries. simpl. now destruct (array_index p).
Qed.

(** X8: when the listeners of ['cssRecord:addProperty'] return the payload
    as it is (none registered, for instance), reading a name after
    [addProperties] gives the value the record already had if it had one,
    nothing for a name inherited from [Object.prototype], and otherwise the
    value of the added dictionary. *)
Theorem addProperties_lookup :
  forall (hooks : HookRegistry) (props : PropertiesType) (r : CssRecord) (k : string),
    (forall x, callHook (cssRecord_addProperty hooks) x = x) ->
    obj_wf props ->
    obj_get k (properties (addProperties hooks props r))
    = match obj_get k (properties r) with
      | Some v => Some v
      | None =>
          if includes k Object_prototype_keys then None else obj_get k props
      end.
Proof.
  intros hooks props r k Hid Hwf.
  rewrite <- (obj_get_entries k props Hwf).
  apply obj_entries_wf in Hwf. unfold addProperties.
  revert r Hwf. unfold obj_wf.
  induction (obj_entries props) as [|[p v] es IH]; intros r Hwf;
    cbn [fold_left obj_get fst snd].
  - destruct (obj_get k (properties r)); [reflexivity |].
    now destruct (includes k Object_prototype_keys).
  - cbn [map fst] in Hwf. inversion Hwf as [|? ? Hnotin Hwf']; subst.
    rewrite (IH _ Hwf'). clear IH.
    unfold addProperty. rewrite Hid, obj_spread_singleton.
    cbn [properties set_changed]. unfold js_in, obj_has_own.
    destruct (String.eqb k p) eqn:E.
    + apply String.eqb_eq in E. subst k.
      destruct (obj_get p (properties r)) as [v0|] eqn:G;
        cbn [orb properties set_changed set_properties].
      * now rewrite G.
      * destruct (includes p Object_prototype_keys) eqn:I;
          cbn [properties set_properties set_changed].
        -- now rewrite G.
        -- now rewrite obj_get_set_same.
    + apply String.eqb_neq in E.
      destruct (match obj_get p (properties r) with
                | Some _ => true | None => false end
                || includes p Object_prototype_keys);
        cbn [properties set_properties set_changed]; [reflexivity |].
      now rewrite obj_get_set_other.
Qed.

Lemma addProperties_lookup_witness :
  let r := addProperties no_hooks
             [("color", "blue"); ("margin", "20px"); ("valueOf", "1")]
             (addProperty no_hooks "margin" "10px" initial_record) in
  obj_get "margin" (properties r) = Some "10px"
  /\ obj_get "color" (properties r) = Some "blue"
  /\ obj_get "valueOf" (properties r) = None.
Proof.
  intros r. subst r.
  assert (Hwf : obj_wf (V:=string)
                  [("color", "blue"); ("margin", "20px"); ("valueOf", "1")]).
  { unfold obj_wf. simpl. repeat constructor; simpl; intuition discriminate. }
  rewrite !(addProperties_lookup no_hooks _ _ _ (fun x => eq_refl) Hwf).
  repeat split.
Defined.

(** ** Names inherited from [Object.prototype] *)

Lemma prototype_key_escape k :
  In k Object_prototype_keys -> escape_selector k = k.
Proof.
  unfold Object_prototype_keys. simpl.
  intros H. repeat (destruct H as [<- | H]; [reflexivity |]). contradiction.
Qed.

(** X9: a name that every object inherits from [Object.prototype]
    ([constructor], [toString], ...) passes the [in] test and the [typeof]
    test on an empty dictionary, so it can never be stored: [addProperty],
    [addComponent] and the legacy [addProperty] return without effect. *)
Theorem prototype_names_are_never_stored :
  forall (hooks : HookRegistry) (k v : string) (chain : list string)
         (r : CssRecord) (lr : Legacy.CssRecord),
    In k Object_prototype_keys ->
    addProperty hooks k v r = r
    /\ addComponent k chain r = r
    /\ Legacy.addProperty k v lr = lr.
Proof.
  intros hooks k v chain r lr Hin.
  assert (Hinc : includes k Object_prototype_keys = true)
    by now apply includes_true_iff.
  split.
  { apply addProperty_present. unfold js_in. rewrite Hinc. apply orb_true_r. }
  split.
  { unfold addComponent. rewrite (prototype_key_escape k Hin).
    unfold js_in. rewrite Hinc, orb_true_r. reflexivity. }
  unfold Legacy.addProperty, Legacy.hasProperty. rewrite Hinc, orb_true_r.
  reflexivity.
Qed.

Lemma prototype_names_are_never_stored_witness :
  properties (addProperty no_hooks "constructor" "x" initial_record) = []
  /\ components (addComponent "toString" ["a"] initial_record) = [].
Proof.
  destruct (prototype_names_are_never_stored no_hooks "constructor" "x" []
              initial_record Legacy.fresh) as (H1 & _).
  { simpl. tauto. }
  destruct (prototype_names_are_never_stored no_hooks "toString" "x" ["a"]
              initial_record Legacy.fresh) as (_ & H2 & _).
  { simpl. tauto. }
  rewrite H1, H2. split; reflexivity.
Defined.

(** ** The selectors of [generateCss] under pseudo-classes *)

Lemma map_flat_map {A B C : Type} (f : B -> C) (g : A -> list B) (l : list A) :
  map f (flat_map g l) = flat_map (fun x => map f (g x)) l.
Proof.
  induction l as [|x l IH]; simpl; [reflexivity |].
  now rewrite map_app, IH.
Qed.

(** X10: with pseudo-classes [pcs ++ [pc]], the selectors [generateCss]
    writes are the custom selectors under the last pseudo-class [pc] only,
    followed, for each pseudo-class in order, by the class selector and the
    component selectors under it; the scope is in front of each. *)
Theorem selector_variants_with_pseudo :
  forall (config : CssRecordCompileParametersConfig) (r : CssRecord)
         (pcs : list string) (pc : string),
    pseudoClasses r = pcs ++ [pc] ->
    let sc := template_scope (scope r) in
    let sel :=
      template (if mangleSelectors config then mangledSelector r else selector r) in
    let comps := componentsSelectors_of (components r) in
    selector_variants config r
    = map (fun c => sc +++ c +++ ":" +++ pc) (customSelectors r)
      ++ flat_map
           (fun p =>
              (sc +++ "." +++ sel +++ ":" +++ p)
              :: map (fun c => sc +++ "." +++ c +++ ":" +++ p) comps)
           (pcs ++ [pc]).
Proof.
  intros config r pcs pc Hp sc sel comps.
  unfold selector_variants. fold sel. fold comps. fold sc. rewrite Hp.
  replace (custom_and_class (customSelectors r) sel comps (pcs ++ [pc]))
    with (fold_left (pseudo_step (customSelectors r) sel comps) (pcs ++ [pc]) ([], []))
    by (destruct pcs; reflexivity).
  rewrite pseudo_loop. cbn [snd]. rewrite app_nil_l.
  rewrite map_map, map_flat_map. f_equal.
  apply flat_map_ext. intros p. cbn [map]. f_equal.
  rewrite map_map. reflexivity.
Qed.

Lemma selector_variants_with_pseudo_witness :
  selector_variants (mkCompileConfig false false) scoped_pseudo_example
  = ["#app article:focus"; "#app .s:hover"; "#app .x.y.btn:hover";
     "#app .s:focus"; "#app .x.y.btn:focus"].
Proof.
  rewrite (selector_variants_with_pseudo (mkCompileConfig false false)
             scoped_pseudo_example ["hover"] "focus" eq_refl).
  reflexivity.
Defined.

(** ** [addPseudoClasses] *)

Lemma addPseudoClass_pseudoClasses r pc :
  pseudoClasses (addPseudoClass r pc)
  = if includes pc (pseudoClasses r) then pseudoClasses r
    else pseudoClasses r ++ [pc].
Proof. unfold addPseudoClass. now destruct (includes pc (pseudoClasses r)). Qed.

Lemma fold_addPseudoClass_appends l :
  forall r,
    exists extra,
      pseudoClasses (fold_left addPseudoClass l r) = pseudoClasses r ++ extra
      /\ NoDup extra
      /\ (forall q, In q extra <-> In q l /\ ~ In q (pseudoClasses r)).
Proof.
  induction l as [|pc l IH]; intros r; cbn [fold_left].
  - exists []. rewrite app_nil_r. split; [reflexivity |].
    split; [constructor |]. intros q. simpl. tauto.
  - destruct (IH (addPseudoClass r pc)) as (extra & E & Hnd & Hin).
    rewrite addPseudoClass_pseudoClasses in E.
    assert (Hin' : forall q, In q extra <->
                     In q l /\ ~ In q (if includes pc (pseudoClasses r)
                                        then pseudoClasses r
                                        else pseudoClasses r ++ [pc])).
    { intros q. rewrite Hin, addPseudoClass_pseudoClasses. reflexivity. }
    clear Hin. rename Hin' into Hin.
    destruct (includes pc (pseudoClasses r)) eqn:Hpc.
    + exists extra. split; [exact E |]. split; [exact Hnd |].
      intros q. rewrite Hin. apply includes_true_iff in Hpc. simpl.
      split; [tauto |]. intros [[<- | H] Hn]; [contradiction | tauto].
    + exists (pc :: extra). rewrite E, <- app_assoc. split; [reflexivity |].
      assert (Hnot : ~ In pc (pseudoClasses r)).
      { intros H. apply includes_true_iff in H. congruence. }
      split.
      * constructor; [| exact Hnd]. intros H. apply Hin in H.
        destruct H as [_ H]. apply H. apply in_or_app. right. now left.
      * intros q. simpl. rewrite Hin. rewrite in_app_iff. simpl.
        destruct (string_dec pc q) as [<- | Hne]; [tauto |]. tauto.
Qed.

(** X11: [addPseudoClasses], given one pseudo-class or a list, keeps the
    pseudo-classes of the record in front and appends, each once, exactly
    those of the argument that the record did not have. *)
Theorem addPseudoClasses_appends_new :
  forall (arg : string + list string) (r : CssRecord),
    exists extra,
      pseudoClasses (addPseudoClasses arg r) = pseudoClasses r ++ extra
      /\ NoDup extra
      /\ (forall q,
            In q extra
            <-> In q (match arg with inl s => [s] | inr l => l end)
                /\ ~ In q (pseudoClasses r)).
Proof.
  intros arg r. unfold addPseudoClasses. apply fold_addPseudoClass_appends.
Qed.

(** ** Component selectors *)

Lemma split_space_not_nil s : split_space s <> [].
Proof.
  destruct s as [|c s]; simpl; [discriminate |].
  destruct (Ascii.eqb c " "); [discriminate |].
  destruct (split_space s); discriminate.
Qed.

Lemma join_cons_char sep a h t :
  join sep (String a h :: t) = String a (join sep (h :: t)).
Proof. destruct t; reflexivity. Qed.

Lemma join_empty_head sep x l : join sep (EmptyString :: x :: l) = sep +++ join sep (x :: l).
Proof. reflexivity. Qed.

(** Splitting on spaces and joining with dots, the component last, writes
    the text with its spaces turned into dots, a dot and the component. *)
Lemma join_split_space s c :
  join "." (split_space s ++ [c]) = spaces_to_dots s +++ "." +++ c.
Proof.
  induction s as [|a s IH]; [reflexivity |].
  cbn [split_space spaces_to_dots].
  destruct (Ascii.eqb a " ") eqn:E.
  - cbn [app].
    destruct (split_space s ++ [c]) as [|x l] eqn:El;
      [destruct (split_space s); discriminate |].
    rewrite join_empty_head, IH. reflexivity.
  - destruct (split_space s) as [|h t] eqn:Es;
      [now destruct (split_space_not_nil s) |].
    cbn [app]. rewrite join_cons_char.
    change (h :: t ++ [c]) with ((h :: t) ++ [c]). rewrite IH. reflexivity.
Qed.

(** X12: a component without chains gives its own selector; with chains it
    gives one selector per chain: the chain with its runs of white space
    collapsed and every space turned into a dot, then a dot and the
    component; a lone blank chain is dropped and counts as no chain. *)
Theorem chain_selectors_dotted :
  forall (componentSelector : string),
    chain_selectors componentSelector [] = [componentSelector]
    /\ (forall chain chains,
          chain_selectors componentSelector (chain :: chains)
          = map (fun ch =>
                   spaces_to_dots (collapse_spaces false ch) +++ "."
                   +++ componentSelector)
                (chain :: chains))
    /\ (forall only,
          test_blank_line true only = true ->
          chain_selectors componentSelector (pop_blank_chain [only])
          = [componentSelector]).
Proof.
  intros comp. split; [reflexivity |]. split.
  - intros chain chains. unfold chain_selectors.
    apply map_ext. intros ch. apply join_split_space.
  - intros only H. unfold pop_blank_chain. now rewrite H.
Qed.

Lemma chain_selectors_dotted_witness :
  chain_selectors "btn" ["a   b c"; "d"] = ["a.b.c.btn"; "d.btn"]
  /\ chain_selectors "btn" (pop_blank_chain ["  "]) = ["btn"].
Proof.
  destruct (chain_selectors_dotted "btn") as (_ & H2 & H3).
  split; [rewrite H2; reflexivity | apply H3; reflexivity].
Defined.

Lemma no_adjacent_spaces_cons c s :
  (is_space c = false \/ starts_visible s = true) ->
  no_adjacent_spaces s = true ->
  no_adjacent_spaces (String c s) = true.
Proof.
  intros H Hs. destruct s as [|d s']; [reflexivity |].
  change (no_adjacent_spaces (String c (String d s')))
    with (negb (is_space c && is_space d) && no_adjacent_spaces (String d s')).
  rewrite Hs, andb_true_r.
  destruct H as [-> | H]; [reflexivity |].
  simpl in H. apply negb_true_iff in H. rewrite H. now rewrite andb_false_r.
Qed.

Lemma collapse_spaces_shape s :
  no_adjacent_spaces (collapse_spaces false s) = true
  /\ no_adjacent_spaces (collapse_spaces true s) = true
  /\ starts_visible (collapse_spaces true s) = true.
Proof.
  induction s as [|c s (IH1 & IH2 & IH3)]; [repeat split |].
  cbn [collapse_spaces]. destruct (is_space c) eqn:Ec.
  - split; [| split; assumption].
    destruct s as [|d s']; [reflexivity |].
    destruct (is_space d) eqn:Ed.
    + apply no_adjacent_spaces_cons; [now right | assumption].
    + apply no_adjacent_spaces_cons; [| assumption]. right.
      cbn [collapse_spaces]. rewrite Ed. simpl. now rewrite Ed.
  - assert (H : no_adjacent_spaces (String c (collapse_spaces false s)) = true)
      by (apply no_adjacent_spaces_cons; [now left | assumption]).
    repeat split; try assumption. simpl. now rewrite Ec.
Qed.

(** X13: after the replacement of the runs of white space no two
    white-space characters follow each other in a chain. *)
Theorem collapse_spaces_no_adjacent :
  forall s, no_adjacent_spaces (collapse_spaces false s) = true.
Proof. intros s. apply collapse_spaces_shape. Qed.

(** ** The bundler's [files] option *)

Lemma has_visible_char_append a b :
  has_visible_char (a +++ b) = has_visible_char a || has_visible_char b.
Proof.
  unfold has_visible_char.
  induction a as [|c a IH]; simpl; [reflexivity |].
  now rewrite IH, orb_assoc.
Qed.

Lemma has_visible_char_rev s :
  has_visible_char (Bundler.string_rev s) = has_visible_char s.
Proof.
  induction s as [|c s IH]; [reflexivity |].
  cbn [Bundler.string_rev]. rewrite has_visible_char_append, IH.
  unfold has_visible_char. simpl. rewrite orb_false_r. apply orb_comm.
Qed.

Lemma has_visible_char_trim_start s :
  has_visible_char (Bundler.trim_start s) = has_visible_char s.
Proof.
  induction s as [|c s IH]; [reflexivity |].
  cbn [Bundler.trim_start]. destruct (is_space c) eqn:E; [| reflexivity].
  rewrite IH. unfold has_visible_char. simpl. now rewrite E.
Qed.

Lemma trim_start_empty s :
  Bundler.trim_start s = EmptyString <-> has_visible_char s = false.
Proof.
  induction s as [|c s IH]; [split; reflexivity |].
  cbn [Bundler.trim_start]. unfold has_visible_char in *. simpl.
  destruct (is_space c); simpl; [exact IH | split; discriminate].
Qed.

Lemma string_rev_empty s : Bundler.string_rev s = EmptyString <-> s = EmptyString.
Proof.
  destruct s as [|c s]; [split; reflexivity |].
  cbn [Bundler.string_rev]. split; [| discriminate].
  intros H. apply (f_equal String.length) in H.
  rewrite length_append in H. simpl in H. lia.
Qed.

(** [value.trim().length !== 0] says that the value has a character that is
    not white space. *)
Lemma trim_length_visible v :
  negb (Nat.eqb (String.length (Bundler.trim v)) 0) = has_visible_char v.
Proof.
  assert (H : Bundler.trim v = EmptyString <-> has_visible_char v = false).
  { unfold Bundler.trim. rewrite string_rev_empty, trim_start_empty.
    now rewrite has_visible_char_rev, has_visible_char_trim_start. }
  destruct (has_visible_char v).
  - destruct (Bundler.trim v) eqn:E; [| reflexivity].
    destruct H as [H _]. now specialize (H eq_refl).
  - destruct H as [_ H]. now rewrite (H eq_refl).
Qed.

Lemma split_space_no_space s x :
  In x (split_space s) -> ~ In " "%char (list_ascii_of_string x).
Proof.
  revert x. induction s as [|c s IH]; intros x; cbn [split_space].
  - intros [<- | []] [].
  - destruct (Ascii.eqb c " ") eqn:E.
    + intros [<- | H]; [intros [] | now apply IH].
    + destruct (split_space s) as [|h t] eqn:Es.
      * intros [<- | []]. simpl. intros [H | []].
        subst c. discriminate.
      * intros [<- | H].
        -- simpl. intros [Hc | Hh]; [subst c; discriminate |].
           apply (IH h); [now left | assumption].
        -- apply IH. now right.
Qed.

Lemma split_space_visible s x :
  In x (split_space s) -> has_visible_char x = true -> has_visible_char s = true.
Proof.
  revert x. induction s as [|c s IH]; intros x; cbn [split_space].
  - intros [<- | []] H. discriminate.
  - unfold has_visible_char in *. cbn [list_ascii_of_string existsb].
    destruct (Ascii.eqb c " ") eqn:E.
    + intros [<- | H] Hv; [discriminate |].
      rewrite (IH x H Hv). apply orb_true_r.
    + destruct (split_space s) as [|h t] eqn:Es.
      * now destruct (split_space_not_nil s).
      * intros [<- | H] Hv.
        -- simpl in Hv. apply orb_true_iff in Hv. destruct Hv as [-> | Hv];
             [reflexivity |].
           rewrite (IH h (or_introl eq_refl) Hv). apply orb_true_r.
        -- rewrite (IH x (or_intror H) Hv). apply orb_true_r.
Qed.

(** X14: the [files] processor keeps the files already listed in front and
    appends exactly the space-separated pieces of the option value that
    have a character other than white space, in order; no appended entry is
    empty or contains a space, and a blank option value appends nothing. *)
Theorem files_processor_appends_tokens :
  forall (files : option (list string)) (optionMatchValue : string),
    exists added,
      Bundler.files_processor files optionMatchValue
      = match files with Some l => l | None => [] end ++ added
      /\ added = filter has_visible_char (split_space optionMatchValue)
      /\ (forall x, In x added ->
            x <> EmptyString /\ ~ In " "%char (list_ascii_of_string x))
      /\ (has_visible_char optionMatchValue = false -> added = []).
Proof.
  intros files value.
  exists (filter has_visible_char (split_space value)).
  split.
  { unfold Bundler.files_processor. f_equal. apply filter_ext.
    intros x. apply trim_length_visible. }
  split; [reflexivity |]. split.
  - intros x Hx. apply filter_In in Hx. destruct Hx as [Hin Hv]. split.
    + intros ->. discriminate.
    + now apply (split_space_no_space value).
  - intros Hblank.
    destruct (filter has_visible_char (split_space value)) as [|x l] eqn:E;
      [reflexivity |].
    assert (Hx : In x (filter has_visible_char (split_space value)))
      by (rewrite E; now left).
    apply filter_In in Hx. destruct Hx as [Hin Hv].
    rewrite (split_space_visible value x Hin Hv) in Hblank. discriminate.
Qed.

Lemma files_processor_appends_tokens_witness :
  Bundler.files_processor (Some ["a.html"]) "  b.html   c.js  " = ["a.html"; "b.html"; "c.js"]
  /\ Bundler.files_processor None "   " = [].
Proof.
  destruct (files_processor_appends_tokens (Some ["a.html"]) "  b.html   c.js  ")
    as (added & -> & -> & _).
  destruct (files_processor_appends_tokens None "   ")
    as (added' & -> & _ & _ & Hblank).
  rewrite (Hblank eq_refl). split; reflexivity.
Defined.

(** ** Minimizing *)

Lemma join_length_le sep1 sep2 l1 l2 :
  String.length sep1 <= String.length sep2 ->
  Forall2 (fun a b => String.length a <= String.length b) l1 l2 ->
  String.length (join sep1 l1) <= String.length (join sep2 l2).
Proof.
  intros Hsep H. induction H as [|a b l1 l2 Hab Hl IH]; [reflexivity |].
  destruct Hl as [|a' b' l1' l2' Hab' Hl']; [exact Hab |].
  rewrite !join_cons_length. lia.
Qed.

Lemma Forall2_map_same {A : Type} (f g : A -> string) (l : list A) :
  (forall x, String.length (f x) <= String.length (g x)) ->
  Forall2 (fun a b => String.length a <= String.length b) (map f l) (map g l).
Proof. intros H. induction l; simpl; constructor; auto. Qed.

(** X15: for the same record and the same mangling choice the minimized
    text is at least three characters shorter than the text that is not
    minimized. *)
Theorem render_minimized_is_shorter :
  forall (mangle : bool) (r : CssRecord),
    String.length (render (mkCompileConfig true mangle) r) + 3
    <= String.length (render (mkCompileConfig false mangle) r).
Proof.
  intros mangle r. unfold render. cbn [minimize].
  rewrite !length_append.
  assert (H1 : String.length (join ("," +++ EmptyString)
                                (selector_variants (mkCompileConfig true mangle) r))
               <= String.length (join ("," +++ newline)
                                   (selector_variants (mkCompileConfig false mangle) r))).
  { apply join_length_le; [simpl; lia |].
    replace (selector_variants (mkCompileConfig true mangle) r)
      with (map (fun s : string => s) (selector_variants (mkCompileConfig false mangle) r))
      by (rewrite map_id; reflexivity).
    rewrite <- (map_id (selector_variants (mkCompileConfig false mangle) r)) at 2.
    apply Forall2_map_same. intros x. lia. }
  assert (H2 : String.length
                 (join (";" +++ EmptyString)
                    (map (fun e => (EmptyString +++ fst e) +++ ":" +++ (EmptyString +++ snd e))
                       (obj_entries (properties r))))
               <= String.length
                    (join (";" +++ newline)
                       (map (fun e => (tab +++ fst e) +++ ":" +++ (" " +++ snd e))
                          (obj_entries (properties r))))).
  { apply join_length_le; [simpl; lia |].
    apply Forall2_map_same. intros x. rewrite !length_append. simpl. lia. }
  simpl String.length at 1. simpl in *. lia.
Qed.

(** ** What regenerating the cache leaves alone *)

(** X16: the recomputation inside [generateCss] touches the cache, the flag
    and the chains of the components only: selector, mangled selector,
    screen, scope, custom selectors, properties, pseudo-classes,
    [shouldBeGenerated] and the component names stay, and the emptying of a
    blank chain changes no rendering, under any configuration. *)
Theorem refresh_cache_is_benign :
  forall (c config : CssRecordCompileParametersConfig) (r : CssRecord),
    let r' := refresh_cache c r in
    selector r' = selector r /\ mangledSelector r' = mangledSelector r
    /\ screenId r' = screenId r /\ scope r' = scope r
    /\ customSelectors r' = customSelectors r /\ properties r' = properties r
    /\ pseudoClasses r' = pseudoClasses r
    /\ shouldBeGenerated r' = shouldBeGenerated r
    /\ map fst (components r') = map fst (components r)
    /\ render config r' = render config r.
Proof.
  intros c config r r'.
  assert (Hrender : render config r' = render config r)
    by apply render_refresh_cache.
  subst r'. unfold refresh_cache in *.
  destruct (changed r || cache_missing (cache r)); [| repeat split; assumption].
  unfold regenerate. cbn. repeat split; try assumption.
  unfold popped_components. apply map_values_keys.
Qed.
